(** * hue-shims: the dumb-switch reconciler of [shims.py]

    A shallow embedding of [exp_backoff], [LoggingContext] and
    [DumbSwitchShim] in a state-and-exception monad over an explicit
    world, followed by the properties of the reconciliation loop.

    The hub and every other external party are an oracle: the answer to
    a request is a function of the whole interaction history so far, so
    nothing is assumed about how the hub behaves over time. *)

From stdpp Require Import gmap strings list pretty.
From Stdlib Require Import ZArith Lia.

Set Warnings "-register-all".
Local Open Scope Z_scope.

(** ** Python values

    What [r.json()] can return (numbers restricted to integers), plus the
    set literal that [_get_light_reachable] uses as a fallback. *)

Inductive PyVal : Type :=
| PNone
| PBool (b : bool)
| PInt (n : Z)
| PStr (s : string)
| PList (l : list PyVal)
| PDict (d : gmap string PyVal)
| PSet (s : gset string).

(** Truth value testing, as in [if x:]. *)
Definition truthy (v : PyVal) : bool :=
  match v with
  | PNone => false
  | PBool b => b
  | PInt n => negb (n =? 0)
  | PStr s => negb (String.eqb s "")
  | PList l => match l with [] => false | _ :: _ => true end
  | PDict d => negb (bool_decide (d = ∅))
  | PSet s => negb (bool_decide (s = ∅))
  end.

(** [x == on] for a Python bool [on]: bool is a subclass of int, so
    [1 == True] and [0 == False] hold. *)
Definition py_eq_bool (v : PyVal) (on : bool) : bool :=
  match v with
  | PBool b => eqb b on
  | PInt n => n =? (if on then 1 else 0)
  | _ => false
  end.

(** ** Exceptions *)

Inductive exn : Type :=
| RequestException (msg : string)   (* raised by requests.get / requests.put *)
| HTTPError (status : Z)            (* raised by Response.raise_for_status *)
| JSONDecodeError                   (* raised by Response.json *)
| AttributeError (msg : string)
| AssertionError (msg : string)
| ValueError (msg : string)
| OtherException (msg : string)     (* any other subclass of Exception *)
| BaseOnly (msg : string).          (* KeyboardInterrupt, SystemExit, GeneratorExit *)

(** What [except Exception] catches. *)
Definition is_Exception (e : exn) : bool :=
  match e with
  | BaseOnly _ => false
  | _ => true
  end.

Definition exn_str (e : exn) : string :=
  match e with
  | RequestException msg => msg
  | HTTPError status => pretty status +:+ " Error"
  | JSONDecodeError => "Expecting value"
  | AttributeError msg => msg
  | AssertionError msg => msg
  | ValueError msg => msg
  | OtherException msg => msg
  | BaseOnly msg => msg
  end.

Inductive Res (A : Type) : Type :=
| Ok (a : A)
| Raise (e : exn).
Arguments Ok {A} a.
Arguments Raise {A} e.

Definition is_Ok {A} (r : Res A) : bool :=
  match r with Ok _ => true | Raise _ => false end.

(** ** The outside world *)

Inductive Request : Type :=
| GET (light_id : Z)                  (* GET  {api}/lights/{light_id} *)
| PUT (light_id : Z) (on : bool).     (* PUT  {api}/lights/{light_id}/state  {"on": on} *)

(** The outcome of [requests.get] / [requests.put]: either the call itself
    raises, or a response with a status code and a body; [None] is a body
    that is not JSON. *)
Record Response : Type := mkResponse {
  status_code : Z;
  body : option PyVal
}.

Inductive HttpResult : Type :=
| ConnFail (msg : string)
| Resp (r : Response).

Inductive Event : Type :=
| EvHttp (rq : Request) (rs : HttpResult)
| EvSleep (secs : Z)
| EvLog (level : Z) (msg : string)
| EvCall (r : Res unit).

(** ** Loggers and handlers *)

Record Logger : Type := mkLogger {
  level : Z;
  handlers : list nat
}.

Definition NOTSET : Z := 0.
Definition DEBUG : Z := 10.
Definition INFO : Z := 20.
Definition WARNING : Z := 30.

Definition root : string := "root".

(** ** Program state

    [trace] is the history of interactions, oldest first.  [self_on] is the
    attribute [self.on] of the one [DumbSwitchShim] object; it does not
    exist before [__init__] has assigned it. *)
Record World : Type := mkWorld {
  trace : list Event;
  loggers : string -> Logger;
  closed : gset nat;
  self_on : option bool
}.

Definition set_trace (t : list Event) (w : World) : World :=
  mkWorld t (loggers w) (closed w) (self_on w).
Definition set_loggers (l : string -> Logger) (w : World) : World :=
  mkWorld (trace w) l (closed w) (self_on w).
Definition set_closed (c : gset nat) (w : World) : World :=
  mkWorld (trace w) (loggers w) c (self_on w).
Definition set_self_on (b : bool) (w : World) : World :=
  mkWorld (trace w) (loggers w) (closed w) (Some b).

(** Appending to the history. *)
Definition app_trace (evs : list Event) (w : World) : World :=
  set_trace (trace w ++ evs) w.

Definition update_logger (name : string) (f : Logger -> Logger) (w : World) : World :=
  set_loggers (fun n => if String.eqb n name then f (loggers w n) else loggers w n) w.

(** ** The monad: state over [World], with exceptions *)

Definition M (A : Type) : Type := World -> Res A * World.

Definition ret {A} (a : A) : M A := fun w => (Ok a, w).

Definition raise {A} (e : exn) : M A := fun w => (Raise e, w).

Definition bind {A B} (m : M A) (k : A -> M B) : M B :=
  fun w =>
    match m w with
    | (Ok a, w1) => k a w1
    | (Raise e, w1) => (Raise e, w1)
    end.

Notation "x <- m ;; k" := (bind m (fun x => k))
  (at level 20, m at level 99, k at level 200, only parsing).
Notation "m ;; k" := (bind m (fun _ => k))
  (at level 100, k at level 200, only parsing, right associativity).

(** [try: body / except Exception as e: handler / else: orelse]. *)
Definition try_except {A B} (body : M A) (handler : exn -> M B) (orelse : A -> M B) : M B :=
  fun w =>
    match body w with
    | (Ok a, w1) => orelse a w1
    | (Raise e, w1) => if is_Exception e then handler e w1 else (Raise e, w1)
    end.

(** [with cm: body], for a context manager given by its [__enter__] and
    [__exit__]; a truthy result of [__exit__] suppresses the exception.
    [enter] hands over the manager as [__enter__] has left it, attributes
    assigned there included, and [exit] runs on that. *)
Definition py_with {S} (enter : M S) (exit : S -> M PyVal) (body : M unit) : M unit :=
  fun w =>
    match enter w with
    | (Raise e, w1) => (Raise e, w1)
    | (Ok s, w1) =>
        match body w1 with
        | (Ok tt, w2) =>
            match exit s w2 with
            | (Ok _, w3) => (Ok tt, w3)
            | (Raise e', w3) => (Raise e', w3)
            end
        | (Raise e, w2) =>
            match exit s w2 with
            | (Ok v, w3) => if truthy v then (Ok tt, w3) else (Raise e, w3)
            | (Raise e', w3) => (Raise e', w3)
            end
        end
    end.

Fixpoint for_each {A} (xs : list A) (body : A -> M unit) : M unit :=
  match xs with
  | [] => ret tt
  | x :: rest => body x ;; for_each rest body
  end.

(** [range(n)]. *)
Definition range (n : Z) : list Z := map Z.of_nat (seq 0 (Z.to_nat n)).

Definition emit (e : Event) : M unit :=
  fun w => (Ok tt, app_trace [e] w).

(** [time.sleep]. *)
Definition time_sleep (secs : Z) : M unit :=
  if secs <? 0 then raise (ValueError "sleep length must be non-negative")
  else emit (EvSleep secs).

(** The module-level [logging.warning] / [info] / [debug]: the record goes
    through the root logger when it is enabled for the level. *)
Definition logging_log (lvl : Z) (msg : string) : M unit :=
  fun w => if level (loggers w root) <=? lvl then emit (EvLog lvl msg) w else (Ok tt, w).

Definition logging_warning := logging_log WARNING.
Definition logging_info := logging_log INFO.
Definition logging_debug := logging_log DEBUG.

(** [Logger.setLevel], [addHandler], [removeHandler]; [Handler.close]. *)
Definition setLevel (name : string) (lvl : Z) : M unit :=
  fun w => (Ok tt, update_logger name (fun l => mkLogger lvl (handlers l)) w).

Definition addHandler (name : string) (h : nat) : M unit :=
  fun w => (Ok tt, update_logger name (fun l =>
    if bool_decide (h ∈ handlers l) then l else mkLogger (level l) (handlers l ++ [h])) w).

Fixpoint list_remove (h : nat) (l : list nat) : list nat :=
  match l with
  | [] => []
  | x :: rest => if bool_decide (x = h) then rest else x :: list_remove h rest
  end.

Definition removeHandler (name : string) (h : nat) : M unit :=
  fun w => (Ok tt, update_logger name (fun l => mkLogger (level l) (list_remove h (handlers l))) w).

Definition handler_close (h : nat) : M unit :=
  fun w => (Ok tt, set_closed ({[h]} ∪ closed w) w).

(** ** exp_backoff *)

Fixpoint exp_backoff_loop (f : M unit) (idx : list Z) : M unit :=
  match idx with
  | [] => ret tt
  | i :: rest =>
      try_except f
        (fun e => logging_warning (exn_str e) ;; time_sleep (i ^ 2) ;; exp_backoff_loop f rest)
        (fun _ => ret tt)
  end.

Definition exp_backoff (f : M unit) (tries : Z) : M unit :=
  exp_backoff_loop f (range tries).

(** ** LoggingContext *)

Record LoggingContext : Type := mkLoggingContext {
  lc_logger : string;
  lc_handler : option nat;
  lc_close : bool;
  lc_level : option Z;
  lc_old_level : option Z
}.

Definition LoggingContext_init (logger : option string) (lvl : option Z)
    (handler : option nat) (close : bool) : LoggingContext :=
  mkLoggingContext (default root logger) handler close lvl None.

Definition LoggingContext_enter (self : LoggingContext) : M LoggingContext :=
  self1 <- match lc_level self with
           | Some lvl =>
               fun w =>
                 let old := level (loggers w (lc_logger self)) in
                 (setLevel (lc_logger self) lvl ;;
                  ret (mkLoggingContext (lc_logger self) (lc_handler self) (lc_close self)
                         (lc_level self) (Some old))) w
           | None => ret self
           end ;;
  match lc_handler self with
  | Some h => addHandler (lc_logger self) h
  | None => ret tt
  end ;;
  ret self1.

Definition LoggingContext_exit (self : LoggingContext) : M PyVal :=
  match lc_level self with
  | Some _ =>
      match lc_old_level self with
      | Some old => setLevel (lc_logger self) old
      | None => raise (AttributeError "'LoggingContext' object has no attribute 'old_level'")
      end
  | None => ret tt
  end ;;
  match lc_handler self with
  | Some h => removeHandler (lc_logger self) h
  | None => ret tt
  end ;;
  match lc_handler self with
  | Some h => if lc_close self then handler_close h else ret tt
  | None => ret tt
  end ;;
  ret PNone.

(** [with LoggingContext(...): body]. *)
Definition with_LoggingContext (ctx : LoggingContext) (body : M unit) : M unit :=
  py_with (LoggingContext_enter ctx) LoggingContext_exit body.

(** ** DumbSwitchShim *)

Record DumbSwitchShim : Type := mkDumbSwitchShim {
  api : string;
  trigger_light_ids : list Z;
  target_light_ids : list Z
}.

(** Reading [self.on]. *)
Definition get_self_on : M bool :=
  fun w =>
    match self_on w with
    | Some b => (Ok b, w)
    | None => (Raise (AttributeError "'DumbSwitchShim' object has no attribute 'on'"), w)
    end.

Definition assign_self_on (b : bool) : M unit :=
  fun w => (Ok tt, set_self_on b w).

(** [Response.raise_for_status]: 4xx and 5xx raise. *)
Definition raise_for_status (r : Response) : M unit :=
  if (400 <=? status_code r) && (status_code r <? 600)
  then raise (HTTPError (status_code r))
  else ret tt.

(** [Response.json]. *)
Definition json (r : Response) : M PyVal :=
  match body r with
  | Some v => ret v
  | None => raise JSONDecodeError
  end.

(** [v.get(key, dflt)]: only a dict has the method. *)
Definition py_get (v : PyVal) (key : string) (dflt : PyVal) : M PyVal :=
  match v with
  | PDict d => ret (default dflt (d !! key))
  | _ => raise (AttributeError "object has no attribute 'get'")
  end.

Definition on_off (on : bool) : string := if on then "on" else "off".

Section Shim.

(** The hub: its answer to a request, given the history. *)
Variable hub : list Event -> Request -> HttpResult.

(** [requests.get] and [requests.put]. *)
Definition requests_send (rq : Request) : M Response :=
  fun w =>
    let rs := hub (trace w) rq in
    let w1 := app_trace [EvHttp rq rs] w in
    match rs with
    | ConnFail msg => (Raise (RequestException msg), w1)
    | Resp r => (Ok r, w1)
    end.

Definition _get_light_reachable (self : DumbSwitchShim) (light_id : Z) : M PyVal :=
  r <- requests_send (GET light_id) ;;
  raise_for_status r ;;
  j <- json r ;;
  st <- py_get j "state" (PSet {["reachable"]}) ;;
  py_get st "reachable" PNone.

Fixpoint lights_reachable_loop (self : DumbSwitchShim) (lights : list Z) : M bool :=
  match lights with
  | [] => ret false
  | light :: rest =>
      try_except (_get_light_reachable self light)
        (fun e =>
           logging_warning ("unable to get light status: " +:+ exn_str e) ;;
           ret false)
        (fun v => if truthy v then ret true else lights_reachable_loop self rest)
  end.

Definition lights_reachable (self : DumbSwitchShim) : M bool :=
  lights_reachable_loop self (trigger_light_ids self).

Definition toggle_light (self : DumbSwitchShim) (light_id : Z) (on : bool) : M unit :=
  logging_info ("turning " +:+ on_off on +:+ " " +:+ pretty light_id) ;;
  r <- requests_send (PUT light_id on) ;;
  raise_for_status r ;;
  time_sleep 30 ;;
  r <- requests_send (GET light_id) ;;
  raise_for_status r ;;
  j <- json r ;;
  st <- py_get j "state" (PDict ∅) ;;
  v <- py_get st "on" PNone ;;
  (if py_eq_bool v on then ret tt
   else raise (AssertionError "light state doesn't match expected")) ;;
  assign_self_on on.

(** The constructor. *)
Definition DumbSwitchShim_init (api : string) (trigger_light_ids target_light_ids : list Z)
    : M DumbSwitchShim :=
  let self := mkDumbSwitchShim api trigger_light_ids target_light_ids in
  b <- lights_reachable self ;;
  assign_self_on b ;;
  ret self.

(** The transition block of [run]: the body of the [with] statement. *)
Definition switch_turned (self : DumbSwitchShim) (on : bool) : M unit :=
  with_LoggingContext (LoggingContext_init None (Some DEBUG) None true)
    (logging_info ("switch turned " +:+ on_off on) ;;
     for_each (target_light_ids self)
       (fun light => exp_backoff (toggle_light self light on) 3)).

(** One pass through the body of [while True] in [run]. *)
Definition run_iteration (self : DumbSwitchShim) : M unit :=
  on <- get_self_on ;;
  (if on then time_sleep 30 else time_sleep 5) ;;
  any_reachable <- lights_reachable self ;;
  if any_reachable then
    on <- get_self_on ;;
    if negb on then switch_turned self true
    else logging_debug "switch still on"
  else
    on <- get_self_on ;;
    if on then switch_turned self false
    else logging_debug "switch still off".

(** [run] never returns; [fuel] bounds the number of passes observed. *)
Fixpoint run_loop (self : DumbSwitchShim) (fuel : nat) : M unit :=
  match fuel with
  | O => ret tt
  | S n => run_iteration self ;; run_loop self n
  end.

Definition run (self : DumbSwitchShim) (fuel : nat) : M unit :=
  on <- get_self_on ;;
  logging_info ("started switch shim (position " +:+ on_off on +:+ ")") ;;
  run_loop self fuel.

End Shim.

(** ** An opaque callable

    The operation handed to [exp_backoff] when nothing is known about it:
    the outcome of each invocation is a function of the history. *)
Definition invoke (callee : list Event -> Res unit) : M unit :=
  fun w =>
    let r := callee (trace w) in
    (r, app_trace [EvCall r] w).

(** ** Reading traces *)

Definition is_put (e : Event) : bool :=
  match e with EvHttp (PUT _ _) _ => true | _ => false end.

Definition is_call (e : Event) : bool :=
  match e with EvCall _ => true | _ => false end.

Definition queried (tr : list Event) : list Z :=
  omap (fun e => match e with EvHttp (GET l) _ => Some l | _ => None end) tr.

(** A world at process start: empty history, the root logger as
    [logging.basicConfig(level=logging.INFO)] leaves it, with its one
    stream handler, and [self.on] not yet assigned. *)
Definition fresh_world : World :=
  mkWorld []
    (fun name => if String.eqb name root then mkLogger INFO [0%nat] else mkLogger NOTSET [])
    ∅ None.

Definition ok200 (v : PyVal) : HttpResult := Resp (mkResponse 200 (Some v)).

Definition light_state (reachable on : bool) : PyVal :=
  PDict {[ "state" := PDict (<["reachable" := PBool reachable]> {[ "on" := PBool on ]}) ]}.

(** * Vocabulary of the properties *)

(** ** Histories *)

(** What [logging_log] appends to the history. *)
Definition log_events (w : World) (lvl : Z) (msg : string) : list Event :=
  if level (loggers w root) <=? lvl then [EvLog lvl msg] else [].

(** ** The probe *)

(** The value or exception the per-trigger query produces on a given
    answer of the hub, read off the code itself. *)
Definition query_result (rs : HttpResult) : Res PyVal :=
  fst (_get_light_reachable (fun _ _ => rs) (mkDumbSwitchShim "" [] []) 0 fresh_world).

Inductive Outcome : Type := Reachable | NotReachable | Errored.

Definition outcome_of (rs : HttpResult) : Outcome :=
  match query_result rs with
  | Ok v => if truthy v then Reachable else NotReachable
  | Raise _ => Errored
  end.

(** The probe as the specification words it, over the outcomes of the
    successive queries: its result, and how many triggers it queries. *)
Fixpoint probe_spec (outcomes : list Outcome) : bool :=
  match outcomes with
  | [] => false
  | Reachable :: _ => true
  | Errored :: _ => false
  | NotReachable :: rest => probe_spec rest
  end.

Fixpoint probe_queries (outcomes : list Outcome) : nat :=
  match outcomes with
  | [] => 0
  | Reachable :: _ => 1
  | Errored :: _ => 1
  | NotReachable :: rest => S (probe_queries rest)
  end.

(** The scenario of the specification: triggers 1 and 2, the query of
    light 1 answered 404, light 2 reachable. *)
Definition hub_404_then_reachable (tr : list Event) (rq : Request) : HttpResult :=
  match rq with
  | GET 1 => Resp (mkResponse 404 None)
  | GET _ => ok200 (light_state true false)
  | PUT _ _ => Resp (mkResponse 200 None)
  end.

(** Light 1 answers with a state that has no "reachable" key, light 2 with
    an object that has no "state" key, light 3 is reachable. *)
Definition hub_malformed (tr : list Event) (rq : Request) : HttpResult :=
  match rq with
  | GET 1 => ok200 (PDict {[ "state" := PDict {[ "on" := PBool true ]} ]})
  | GET 2 => ok200 (PDict {[ "name" := PStr "hall" ]})
  | GET _ => ok200 (light_state true true)
  | PUT _ _ => Resp (mkResponse 200 None)
  end.

Definition shim_malformed : DumbSwitchShim :=
  mkDumbSwitchShim "http://hub/api/uid" [1; 2; 3] [].

(** ** The retry utility *)

(** Number of invocations of the callable recorded in a history. *)
Definition calls (tr : list Event) : nat := length (filter is_call tr).

(** What a failed attempt at index [i] appends: the call, the warning,
    the sleep. *)
Definition failed_attempt (w : World) (i : Z) (e : exn) : list Event :=
  [EvCall (Raise e)] ++ log_events w WARNING (exn_str e) ++ [EvSleep (i ^ 2)].

(** An operation that fails twice and then succeeds, and one that always
    fails. *)
Definition fails_twice (tr : list Event) : Res unit :=
  if (calls tr <? 2)%nat then Raise (OtherException "boom") else Ok tt.

Definition always_fails (tr : list Event) : Res unit :=
  Raise (OtherException "boom").

(** The wait that a history shows just before its [i]-th invocation of the
    callable (counted from 1): the time slept since the previous invocation,
    or since the start for the first.  [None] when the history has no
    [i]-th invocation. *)
Fixpoint wait_before (i : nat) (acc : Z) (tr : list Event) : option Z :=
  match tr with
  | [] => None
  | EvCall _ :: rest =>
      match i with
      | O => None
      | S O => Some acc
      | S i' => wait_before i' 0 rest
      end
  | EvSleep secs :: rest => wait_before i (acc + secs) rest
  | _ :: rest => wait_before i acc rest
  end.

(** The sleeps of a history, in order, and its number of caught failures. *)
Definition sleeps (tr : list Event) : list Z :=
  omap (fun e => match e with EvSleep secs => Some secs | _ => None end) tr.

Definition is_caught_failure (e : Event) : bool :=
  match e with EvCall (Raise x) => is_Exception x | _ => false end.

Definition failures (tr : list Event) : nat := length (filter is_caught_failure tr).

Definition expected_wait (s : nat) (c : nat) (i : nat) (acc : Z) : option Z :=
  match i with
  | O => None
  | S O => if (1 <=? c)%nat then Some acc else None
  | _ => if (i <=? c)%nat then Some ((Z.of_nat s + Z.of_nat i - 2) ^ 2) else None
  end.

(** The claim of the specification on the waits, as it is written: the
    wait before attempt [i] is [(i-1)²]. *)
Definition waits_as_stated (seg : list Event) : Prop :=
  ∀ i : nat, (1 <= i <= calls seg)%nat ->
    wait_before i 0 seg = Some ((Z.of_nat i - 1) ^ 2).

(** The history of three attempts of an operation that always fails. *)
Definition three_failures : list Event :=
  trace (snd (exp_backoff (invoke always_fails) 3 fresh_world)).

(** ** The logging context *)

(** A body that logs and then raises, inside a context that lowers the
    root level to DEBUG and attaches handler 7. *)
Definition failing_body : M unit :=
  logging_debug "about to fail" ;; raise (OtherException "boom").

Definition failing_scope : Res unit * World :=
  with_LoggingContext (LoggingContext_init None (Some DEBUG) (Some 7%nat) true)
    failing_body fresh_world.

(** ** Target writes *)

(** Whether [raise_for_status] lets an answer through. *)
Definition accepted (rs : HttpResult) : bool :=
  match rs with
  | ConnFail _ => false
  | Resp r => negb ((400 <=? status_code r) && (status_code r <? 600))
  end.

(** The on/off value that a re-read reports: [None] when the answer is an
    error or has no JSON object to read it from. *)
Definition reported_on (rs : HttpResult) : option PyVal :=
  match rs with
  | ConnFail _ => None
  | Resp r =>
      if (400 <=? status_code r) && (status_code r <? 600) then None
      else match body r with
           | Some (PDict d) =>
               match default (PDict ∅) (d !! "state") with
               | PDict st => Some (default PNone (st !! "on"))
               | _ => None
               end
           | _ => None
           end
  end.

Definition confirms (rs : HttpResult) (on : bool) : bool :=
  match reported_on rs with
  | Some v => py_eq_bool v on
  | None => false
  end.

Definition toggle_log (w : World) (l : Z) (on : bool) : list Event :=
  log_events w INFO ("turning " +:+ on_off on +:+ " " +:+ pretty l).

(** The events of the write, and of the write followed by the settle
    delay and the re-read. *)
Definition write_events (hub : list Event -> Request -> HttpResult)
    (w : World) (l : Z) (on : bool) : list Event :=
  toggle_log w l on ++ [EvHttp (PUT l on) (hub (trace w ++ toggle_log w l on) (PUT l on))].

Definition reread (hub : list Event -> Request -> HttpResult)
    (w : World) (l : Z) (on : bool) : HttpResult :=
  hub (trace w ++ write_events hub w l on ++ [EvSleep 30]) (GET l).

Definition verify_events (hub : list Event -> Request -> HttpResult)
    (w : World) (l : Z) (on : bool) : list Event :=
  write_events hub w l on ++ [EvSleep 30; EvHttp (GET l) (reread hub w l on)].

(** The exception of a failed write, and of a failed verification. *)
Definition write_error (rs : HttpResult) : exn :=
  match rs with
  | ConnFail msg => RequestException msg
  | Resp r => HTTPError (status_code r)
  end.

Definition verify_error (rs : HttpResult) : exn :=
  match rs with
  | ConnFail msg => RequestException msg
  | Resp r =>
      if (400 <=? status_code r) && (status_code r <? 600) then HTTPError (status_code r)
      else match body r with
           | None => JSONDecodeError
           | Some (PDict d) =>
               match default (PDict ∅) (d !! "state") with
               | PDict st => AssertionError "light state doesn't match expected"
               | _ => AttributeError "object has no attribute 'get'"
               end
           | Some _ => AttributeError "object has no attribute 'get'"
           end
  end.

(** A light that accepts the write and still reports itself off. *)
Definition hub_stuck_off (tr : list Event) (rq : Request) : HttpResult :=
  match rq with
  | GET _ => ok200 (light_state true false)
  | PUT _ _ => Resp (mkResponse 200 None)
  end.

Definition shim_one_target : DumbSwitchShim :=
  mkDumbSwitchShim "http://hub/api/uid" [2] [7].

(** ** Passes of the loop *)

(** Whether a stretch of history holds a re-read that confirms the value [on]. *)
Definition is_confirmation (on : bool) (e : Event) : bool :=
  match e with
  | EvHttp (GET _) rs => confirms rs on
  | _ => false
  end.

Definition verified (on : bool) (seg : list Event) : bool :=
  existsb (is_confirmation on) seg.

(** The world after a stretch [seg] of target writes for the value [on]. *)
Definition settle (on : bool) (seg : list Event) (w : World) : World :=
  if verified on seg then set_self_on on (app_trace seg w) else app_trace seg w.

(** The world in which the probe of a pass runs: after the sleep. *)
Definition slept (w : World) (on : bool) : World :=
  app_trace [EvSleep (if on then 30 else 5)] w.

(** A hub whose trigger is reachable and which refuses every write. *)
Definition hub_refusing (tr : list Event) (rq : Request) : HttpResult :=
  match rq with
  | GET _ => ok200 (light_state true false)
  | PUT _ _ => Resp (mkResponse 500 None)
  end.

(** A hub whose trigger is reachable and whose lights do as they are told. *)
Definition hub_obedient (tr : list Event) (rq : Request) : HttpResult :=
  match rq with
  | GET _ => ok200 (light_state true true)
  | PUT _ _ => Resp (mkResponse 200 None)
  end.

Definition shim_no_target : DumbSwitchShim :=
  mkDumbSwitchShim "http://hub/api/uid" [2] [].

Definition world_off : World := set_self_on false fresh_world.

(** The claim of the specification on the state after a transition, as it
    is written. *)
Definition state_follows_probe (hub : list Event -> Request -> HttpResult)
    (self : DumbSwitchShim) (w : World) : Prop :=
  ∀ b, self_on w = Some b ->
       fst (lights_reachable hub self (slept w b)) = Ok (negb b) ->
       self_on (snd (run_iteration hub self w)) = Some (negb b).

(** Two passes in a row that both find the trigger reachable, starting OFF. *)
Definition after_one_pass (hub : list Event -> Request -> HttpResult)
    (self : DumbSwitchShim) : World :=
  snd (run_iteration hub self world_off).

Definition after_two_passes (hub : list Event -> Request -> HttpResult)
    (self : DumbSwitchShim) : World :=
  snd (run_iteration hub self (after_one_pass hub self)).

Definition puts (tr : list Event) : nat := length (filter is_put tr).

(** The second half of the claim of the specification on steady passes, as
    it is written: of two passes in a row that both find the trigger
    reachable, only the first issues writes. *)
Definition writes_only_on_first_pass (hub : list Event -> Request -> HttpResult)
    (self : DumbSwitchShim) (w : World) : Prop :=
  self_on w = Some false ->
  fst (lights_reachable hub self (slept w false)) = Ok true ->
  ∀ b1, self_on (snd (run_iteration hub self w)) = Some b1 ->
        fst (lights_reachable hub self (slept (snd (run_iteration hub self w)) b1)) = Ok true ->
        puts (trace (snd (run_iteration hub self (snd (run_iteration hub self w))))) =
        puts (trace (snd (run_iteration hub self w))).

(** ** Requests, sleeps and logging of a history *)

(** The writes of a history, in order: light and value. *)
Definition put_requests (tr : list Event) : list (Z * bool) :=
  omap (fun e => match e with EvHttp (PUT l on) _ => Some (l, on) | _ => None end) tr.

(** The time a history spends asleep. *)
Definition total_sleep (tr : list Event) : Z := foldr Z.add 0 (sleeps tr).

Definition is_http (e : Event) : bool :=
  match e with EvHttp _ _ => true | _ => false end.

(** Two worlds with the same logging configuration. *)
Definition same_logging (w w' : World) : Prop :=
  (∀ name, loggers w' name = loggers w name) ∧ closed w' = closed w.

(** Light 1 has no "reachable" key, light 3 is reachable. *)
Definition shim_skip_to_reachable : DumbSwitchShim :=
  mkDumbSwitchShim "http://hub/api/uid" [1; 3] [].

(** The most that the retries of one target can sleep: three settle
    delays and the backoff waits 0, 1 and 4. *)
Definition sleep_budget (idx : list Z) : Z := foldr (fun i acc => 30 + i ^ 2 + acc) 0 idx.

(** The writes of a transition: target after target, each [k] times. *)
Definition writes_of (targets : list Z) (ks : list nat) (on : bool) : list (Z * bool) :=
  concat (zip_with (fun l k => replicate k (l, on)) targets ks).

(** The "state" object of an answer, as the per-trigger query finds it:
    [None] when the request failed, the status is 4xx or 5xx, the body is
    not a JSON object, or its "state" is missing or is not an object. *)
Definition state_object (rs : HttpResult) : option (gmap string PyVal) :=
  match rs with
  | ConnFail _ => None
  | Resp r =>
      if (400 <=? status_code r) && (status_code r <? 600) then None
      else match body r with
           | Some (PDict d) =>
               match d !! "state" with
               | Some (PDict st) => Some st
               | _ => None
               end
           | _ => None
           end
  end.

(** A root logger set to WARNING, above INFO. *)
Definition world_quiet : World :=
  set_self_on false
    (set_loggers (fun _ => mkLogger WARNING []) fresh_world).

(** * Properties *)

(** ** Worlds and traces *)

(** The history of a world that was extended with [app_trace]. *)
Ltac trace_of_app_trace :=
  change (trace (app_trace ?a ?b)) with (trace b ++ a).

Lemma app_trace_nil w : app_trace [] w = w.
Proof. destruct w; unfold app_trace, set_trace; simpl. by rewrite app_nil_r. Qed.

Lemma app_trace_app a b w : app_trace b (app_trace a w) = app_trace (a ++ b) w.
Proof. unfold app_trace, set_trace; simpl. by rewrite app_assoc. Qed.

Lemma set_self_on_app_trace b evs w :
  set_self_on b (app_trace evs w) = app_trace evs (set_self_on b w).
Proof. reflexivity. Qed.

Lemma logging_log_eq lvl msg w :
  logging_log lvl msg w = (Ok tt, app_trace (log_events w lvl msg) w).
Proof.
  unfold logging_log, log_events.
  destruct (level (loggers w root) <=? lvl); [reflexivity |].
  by rewrite app_trace_nil.
Qed.

Lemma log_events_no_http w lvl msg :
  queried (log_events w lvl msg) = [] ∧ filter is_put (log_events w lvl msg) = [].
Proof. unfold log_events. by destruct (_ <=? _). Qed.

Lemma time_sleep_eq secs w :
  0 <= secs -> time_sleep secs w = (Ok tt, app_trace [EvSleep secs] w).
Proof.
  intros H. unfold time_sleep.
  destruct (Z.ltb_spec secs 0); [lia | reflexivity].
Qed.

Lemma queried_app a b : queried (a ++ b) = queried a ++ queried b.
Proof. unfold queried. apply omap_app. Qed.

(** ** The reachability probe *)

Lemma get_light_reachable_eq hub self l w :
  _get_light_reachable hub self l w =
    (query_result (hub (trace w) (GET l)),
     app_trace [EvHttp (GET l) (hub (trace w) (GET l))] w).
Proof.
  unfold query_result, _get_light_reachable, bind, requests_send. simpl.
  destruct (hub (trace w) (GET l)) as [msg | [sc bd]]; simpl; [reflexivity |].
  unfold raise_for_status; simpl.
  destruct ((400 <=? sc) && (sc <? 600)); simpl; [reflexivity |].
  destruct bd as [v |]; simpl; [| reflexivity].
  destruct v; simpl; try reflexivity.
  destruct (default (PSet {["reachable"]}) (d !! "state")); reflexivity.
Qed.

Lemma query_result_Exception rs e :
  query_result rs = Raise e -> is_Exception e = true.
Proof.
  unfold query_result, _get_light_reachable, bind, requests_send. simpl.
  destruct rs as [msg | [sc bd]]; simpl; [by intros [= <-] |].
  unfold raise_for_status; simpl.
  destruct ((400 <=? sc) && (sc <? 600)); simpl; [by intros [= <-] |].
  destruct bd as [v |]; simpl; [| by intros [= <-]].
  destruct v; simpl; try by intros [= <-].
  destruct (default (PSet {["reachable"]}) (d !! "state")); simpl; by intros [= <-].
Qed.

(** The three ways one pass of the trigger loop can go. *)
Lemma lights_reachable_loop_cons hub self l rest w :
  let rs := hub (trace w) (GET l) in
  let w1 := app_trace [EvHttp (GET l) rs] w in
  lights_reachable_loop hub self (l :: rest) w =
    match outcome_of rs with
    | Reachable => (Ok true, w1)
    | NotReachable => lights_reachable_loop hub self rest w1
    | Errored =>
        (Ok false,
         app_trace (log_events w1 WARNING
           ("unable to get light status: " +:+
            match query_result rs with Raise e => exn_str e | Ok _ => "" end)) w1)
    end.
Proof.
  simpl. unfold try_except. rewrite get_light_reachable_eq. unfold outcome_of.
  destruct (query_result (hub (trace w) (GET l))) as [v | e] eqn:Hq.
  - by destruct (truthy v).
  - rewrite (query_result_Exception _ _ Hq).
    unfold bind, logging_warning. by rewrite logging_log_eq.
Qed.

(** The probe never raises, appends only reads and log records to the
    history, and leaves the rest of the world as it was. *)
Lemma lights_reachable_loop_total hub self ls w :
  ∃ b seg, lights_reachable_loop hub self ls w = (Ok b, app_trace seg w)
           ∧ filter is_put seg = [].
Proof.
  revert w. induction ls as [| l rest IH]; intros w.
  - exists false, []. by rewrite app_trace_nil.
  - rewrite lights_reachable_loop_cons.
    destruct (outcome_of (hub (trace w) (GET l))).
    + by exists true, [EvHttp (GET l) (hub (trace w) (GET l))].
    + destruct (IH (app_trace [EvHttp (GET l) (hub (trace w) (GET l))] w))
        as (b & seg & -> & Hseg).
      exists b, ([EvHttp (GET l) (hub (trace w) (GET l))] ++ seg).
      by rewrite app_trace_app.
    + eexists false, (_ ++ _). rewrite app_trace_app. split; [reflexivity |].
      rewrite filter_app. simpl.
      by destruct (log_events_no_http
        (app_trace [EvHttp (GET l) (hub (trace w) (GET l))] w) WARNING
        ("unable to get light status: " +:+
           match query_result (hub (trace w) (GET l)) with
           | Raise e => exn_str e | Ok _ => "" end)) as [_ ->].
Qed.

Lemma lights_reachable_loop_outcomes hub self ls : ∀ w outcomes,
  length outcomes = length ls ->
  (∀ (j : nat) l o tr,
      ls !! j = Some l -> outcomes !! j = Some o ->
      length (queried tr) = (length (queried (trace w)) + j)%nat ->
      outcome_of (hub tr (GET l)) = o) ->
  ∃ w', lights_reachable_loop hub self ls w = (Ok (probe_spec outcomes), w')
        ∧ queried (trace w') = queried (trace w) ++ take (probe_queries outcomes) ls.
Proof.
  induction ls as [| l rest IH]; intros w outcomes Hlen Hhub.
  - destruct outcomes; [| discriminate]. exists w. simpl. by rewrite app_nil_r.
  - destruct outcomes as [| o os]; [discriminate |].
    rewrite lights_reachable_loop_cons.
    rewrite (Hhub 0%nat l o (trace w)) by (done || lia).
    set (w1 := app_trace [EvHttp (GET l) (hub (trace w) (GET l))] w).
    assert (Hq1 : queried (trace w1) = queried (trace w) ++ [l])
      by (unfold w1; simpl; by rewrite queried_app).
    destruct o; simpl.
    + by exists w1.
    + destruct (IH w1 os) as (w' & Hrun & Hq).
      * simpl in Hlen. lia.
      * intros j l' o' tr Hl Ho Htr. apply (Hhub (S j) l' o' tr); [done | done |].
        rewrite Htr, Hq1, length_app. simpl. lia.
      * exists w'. split; [done |]. by rewrite Hq, Hq1, <- app_assoc.
    + eexists. split; [reflexivity |].
      trace_of_app_trace.
      rewrite queried_app, Hq1.
      destruct (log_events_no_http w1 WARNING
        ("unable to get light status: " +:+
           match query_result (hub (trace w) (GET l)) with
           | Raise e => exn_str e | Ok _ => "" end)) as [-> _].
      by rewrite app_nil_r.
Qed.

(** C2. Whatever the triggers and whatever the outcomes of the successive
    queries, the probe returns what the specification says over those
    outcomes ([true] at the first reachable trigger, [false] at the first
    error, [false] when all are scanned), and it queries exactly the
    triggers up to and including the one that decided: none after the first
    reachable one and none after an error. *)
Theorem lights_reachable_outcomes hub self w (outcomes : list Outcome) :
  length outcomes = length (trigger_light_ids self) ->
  (∀ (j : nat) l o tr,
      trigger_light_ids self !! j = Some l -> outcomes !! j = Some o ->
      length (queried tr) = (length (queried (trace w)) + j)%nat ->
      outcome_of (hub tr (GET l)) = o) ->
  ∃ w', lights_reachable hub self w = (Ok (probe_spec outcomes), w')
        ∧ queried (trace w') =
            queried (trace w) ++ take (probe_queries outcomes) (trigger_light_ids self).
Proof. apply lights_reachable_loop_outcomes. Qed.

Lemma lights_reachable_outcomes_witness :
  ∃ w', lights_reachable hub_404_then_reachable (mkDumbSwitchShim "http://hub/api/uid" [1; 2] [])
          fresh_world = (Ok false, w')
        ∧ queried (trace w') = [1].
Proof.
  apply (lights_reachable_outcomes hub_404_then_reachable
           (mkDumbSwitchShim "http://hub/api/uid" [1; 2] []) fresh_world
           [Errored; Reachable]).
  - reflexivity.
  - intros j l o tr Hl Ho _.
    destruct j as [| [| j]]; simpl in Hl, Ho; simplify_eq; vm_compute; reflexivity.
Defined.

(** What the per-trigger query makes of a response that passes
    [raise_for_status] and carries a JSON object. *)
Lemma query_result_dict sc (d : gmap string PyVal) :
  (400 <=? sc) && (sc <? 600) = false ->
  query_result (Resp (mkResponse sc (Some (PDict d)))) =
    match d !! "state" with
    | Some (PDict st) => Ok (default PNone (st !! "reachable"))
    | Some _ | None => Raise (AttributeError "object has no attribute 'get'")
    end.
Proof.
  intros Hsc.
  unfold query_result, _get_light_reachable, bind, requests_send, raise_for_status.
  simpl. rewrite Hsc. simpl.
  destruct (d !! "state") as [st |]; simpl; [| reflexivity].
  by destruct st.
Qed.

(** C10. A 2xx answer whose "state" object has no "reachable" key makes the
    per-trigger query return [None], which is not true, and the probe goes
    on with the next trigger; a 2xx answer with no "state" key at all makes
    the query raise [AttributeError] (the fallback is a set), and the probe
    stops there with [false], the remaining triggers not queried. *)
Theorem missing_keys_asymmetric hub self l rest w sc (d : gmap string PyVal) :
  hub (trace w) (GET l) = Resp (mkResponse sc (Some (PDict d))) ->
  200 <= sc < 300 ->
  let w1 := app_trace [EvHttp (GET l) (hub (trace w) (GET l))] w in
  (∀ st : gmap string PyVal,
      d !! "state" = Some (PDict st) -> st !! "reachable" = None ->
      _get_light_reachable hub self l w = (Ok PNone, w1)
      ∧ truthy PNone = false
      ∧ lights_reachable_loop hub self (l :: rest) w =
          lights_reachable_loop hub self rest w1)
  ∧ (d !! "state" = None ->
      (∃ msg, _get_light_reachable hub self l w = (Raise (AttributeError msg), w1))
      ∧ ∃ w', lights_reachable_loop hub self (l :: rest) w = (Ok false, w')
              ∧ queried (trace w') = queried (trace w) ++ [l]).
Proof.
  intros Hhub Hsc w1.
  assert (Hst : (400 <=? sc) && (sc <? 600) = false).
  { apply andb_false_iff. left. apply Z.leb_gt. lia. }
  split.
  - intros st Hstate Hreach.
    assert (Hq : query_result (hub (trace w) (GET l)) = Ok PNone).
    { rewrite Hhub, query_result_dict by done. by rewrite Hstate, Hreach. }
    split; [| split; [reflexivity |]].
    + by rewrite get_light_reachable_eq, Hq.
    + rewrite lights_reachable_loop_cons. unfold outcome_of. by rewrite Hq.
  - intros Hstate.
    assert (Hq : query_result (hub (trace w) (GET l)) =
                 Raise (AttributeError "object has no attribute 'get'")).
    { rewrite Hhub, query_result_dict by done. by rewrite Hstate. }
    split.
    + eexists. by rewrite get_light_reachable_eq, Hq.
    + rewrite lights_reachable_loop_cons. unfold outcome_of. rewrite Hq.
      eexists. split; [reflexivity |].
      trace_of_app_trace.
      rewrite queried_app.
      destruct (log_events_no_http (app_trace [EvHttp (GET l) (hub (trace w) (GET l))] w)
        WARNING ("unable to get light status: " +:+
                 exn_str (AttributeError "object has no attribute 'get'"))) as [-> _].
      rewrite app_nil_r. trace_of_app_trace.
      by rewrite queried_app.
Qed.

Lemma missing_keys_asymmetric_witness :
  (lights_reachable_loop hub_malformed shim_malformed [1; 3] fresh_world =
     lights_reachable_loop hub_malformed shim_malformed [3]
       (app_trace [EvHttp (GET 1) (hub_malformed [] (GET 1))] fresh_world))
  ∧ (∃ w', lights_reachable_loop hub_malformed shim_malformed [2; 3] fresh_world
             = (Ok false, w')
           ∧ queried (trace w') = [2]).
Proof.
  split.
  - refine (proj2 (proj2 (proj1 (missing_keys_asymmetric hub_malformed shim_malformed
      1 [3] fresh_world 200 {[ "state" := PDict {[ "on" := PBool true ]} ]} eq_refl _)
      {[ "on" := PBool true ]} eq_refl eq_refl))). lia.
  - refine (proj2 (proj2 (missing_keys_asymmetric hub_malformed shim_malformed
      2 [3] fresh_world 200 {[ "name" := PStr "hall" ]} eq_refl _) eq_refl)). lia.
Defined.

(** C8. The constructor runs the probe of the run loop over the configured
    triggers and stores its result in [self.on]: whatever the hub answers,
    the initial state is the value that probe returns. *)
Theorem init_state_is_probe hub a triggers targets w :
  let self := mkDumbSwitchShim a triggers targets in
  ∃ b w1, lights_reachable hub self w = (Ok b, w1)
          ∧ DumbSwitchShim_init hub a triggers targets w = (Ok self, set_self_on b w1)
          ∧ self_on (set_self_on b w1) = Some b.
Proof.
  intros self.
  destruct (lights_reachable_loop_total hub self triggers w) as (b & seg & Hrun & _).
  exists b, (app_trace seg w). split; [exact Hrun |]. split; [| reflexivity].
  unfold DumbSwitchShim_init, bind. fold self.
  unfold lights_reachable. simpl. by rewrite Hrun.
Qed.

(** Both initial states occur, depending on what the hub answers. *)
Example init_state_on :
  self_on (snd (DumbSwitchShim_init hub_malformed "http://hub/api/uid" [3] [] fresh_world))
  = Some true.
Proof. vm_compute. reflexivity. Qed.

Example init_state_off :
  self_on (snd (DumbSwitchShim_init hub_404_then_reachable "http://hub/api/uid" [1; 2] []
                  fresh_world))
  = Some false.
Proof. vm_compute. reflexivity. Qed.

(** ** The retry utility *)

Lemma calls_app a b : calls (a ++ b) = (calls a + calls b)%nat.
Proof. unfold calls. by rewrite filter_app, length_app. Qed.

Lemma calls_log_events w lvl msg : calls (log_events w lvl msg) = 0%nat.
Proof. unfold log_events. by destruct (_ <=? _). Qed.

Lemma calls_failed_attempt w i e : calls (failed_attempt w i e) = 1%nat.
Proof.
  unfold failed_attempt. rewrite !calls_app, calls_log_events. reflexivity.
Qed.

Lemma exp_backoff_loop_fail callee i rest w e :
  0 <= i -> callee (trace w) = Raise e -> is_Exception e = true ->
  exp_backoff_loop (invoke callee) (i :: rest) w =
    exp_backoff_loop (invoke callee) rest (app_trace (failed_attempt w i e) w).
Proof.
  intros Hi Hc He. simpl. unfold try_except, invoke. rewrite Hc, He.
  unfold bind, logging_warning. rewrite logging_log_eq, time_sleep_eq by lia.
  by rewrite !app_trace_app.
Qed.

Lemma exp_backoff_loop_ok callee i rest w :
  callee (trace w) = Ok tt ->
  exp_backoff_loop (invoke callee) (i :: rest) w = (Ok tt, app_trace [EvCall (Ok tt)] w).
Proof. intros Hc. simpl. unfold try_except, invoke. by rewrite Hc. Qed.

Lemma exp_backoff_loop_propagate callee i rest w e :
  callee (trace w) = Raise e -> is_Exception e = false ->
  exp_backoff_loop (invoke callee) (i :: rest) w =
    (Raise e, app_trace [EvCall (Raise e)] w).
Proof. intros Hc He. simpl. unfold try_except, invoke. by rewrite Hc, He. Qed.

Lemma exp_backoff_loop_fails_then_succeeds callee : ∀ (k n s : nat) w,
  (k < n)%nat ->
  (∀ tr, (calls tr < calls (trace w) + k)%nat ->
         ∃ e, callee tr = Raise e ∧ is_Exception e = true) ->
  (∀ tr, calls tr = (calls (trace w) + k)%nat -> callee tr = Ok tt) ->
  ∃ w', exp_backoff_loop (invoke callee) (map Z.of_nat (seq s n)) w = (Ok tt, w')
        ∧ calls (trace w') = (calls (trace w) + k + 1)%nat.
Proof.
  induction k as [| k IH]; intros n s w Hk Hfail Hok;
    (destruct n as [| n]; [lia |]); simpl seq; simpl map.
  - rewrite exp_backoff_loop_ok by (apply Hok; lia).
    eexists. split; [reflexivity |].
    trace_of_app_trace. rewrite calls_app.
    change (calls [EvCall (Ok tt)]) with 1%nat. lia.
  - destruct (Hfail (trace w)) as (e & Hc & He); [lia |].
    rewrite (exp_backoff_loop_fail _ _ _ _ e) by (done || lia).
    set (w1 := app_trace (failed_attempt w (Z.of_nat s) e) w).
    assert (Hw1 : calls (trace w1) = (calls (trace w) + 1)%nat).
    { unfold w1. trace_of_app_trace.
      by rewrite calls_app, calls_failed_attempt. }
    destruct (IH n (S s) w1) as (w' & Hrun & Hcalls).
    + lia.
    + intros tr Htr. apply Hfail. lia.
    + intros tr Htr. apply Hok. lia.
    + exists w'. split; [done | lia].
Qed.

Lemma exp_backoff_loop_always_fails callee :
  (∀ tr, ∃ e, callee tr = Raise e ∧ is_Exception e = true) ->
  ∀ (n s : nat) w,
  ∃ w', exp_backoff_loop (invoke callee) (map Z.of_nat (seq s n)) w = (Ok tt, w')
        ∧ calls (trace w') = (calls (trace w) + n)%nat.
Proof.
  intros Hfail. induction n as [| n IH]; intros s w; simpl seq; simpl map.
  - exists w. split; [reflexivity | lia].
  - destruct (Hfail (trace w)) as (e & Hc & He).
    rewrite (exp_backoff_loop_fail _ _ _ _ e) by (done || lia).
    destruct (IH (S s) (app_trace (failed_attempt w (Z.of_nat s) e) w))
      as (w' & Hrun & Hcalls).
    exists w'. split; [done |]. rewrite Hcalls.
    trace_of_app_trace.
    rewrite calls_app, calls_failed_attempt. lia.
Qed.

(** C3. With an attempt bound of at least one: an operation that fails on
    its first [k] invocations and succeeds on the next, [k] below the bound,
    is invoked exactly [k + 1] times; an operation that fails every time is
    invoked exactly as many times as the bound allows; either way
    [exp_backoff] returns normally. *)
Theorem exp_backoff_attempts callee (N : Z) w (k : nat) :
  1 <= N ->
  ((k < Z.to_nat N)%nat ->
   (∀ tr, (calls tr < calls (trace w) + k)%nat ->
          ∃ e, callee tr = Raise e ∧ is_Exception e = true) ->
   (∀ tr, calls tr = (calls (trace w) + k)%nat -> callee tr = Ok tt) ->
   ∃ w', exp_backoff (invoke callee) N w = (Ok tt, w')
         ∧ calls (trace w') = (calls (trace w) + (k + 1))%nat)
  ∧ ((∀ tr, ∃ e, callee tr = Raise e ∧ is_Exception e = true) ->
     ∃ w', exp_backoff (invoke callee) N w = (Ok tt, w')
           ∧ calls (trace w') = (calls (trace w) + Z.to_nat N)%nat).
Proof.
  intros HN. unfold exp_backoff, range. split.
  - intros Hk Hfail Hok.
    destruct (exp_backoff_loop_fails_then_succeeds callee k (Z.to_nat N) 0 w Hk Hfail Hok)
      as (w' & Hrun & Hcalls).
    exists w'. split; [done | lia].
  - intros Hfail. apply exp_backoff_loop_always_fails, Hfail.
Qed.

Lemma exp_backoff_attempts_witness :
  (∃ w', exp_backoff (invoke fails_twice) 5 fresh_world = (Ok tt, w')
         ∧ calls (trace w') = 3%nat)
  ∧ (∃ w', exp_backoff (invoke always_fails) 1 fresh_world = (Ok tt, w')
           ∧ calls (trace w') = 1%nat).
Proof.
  split.
  - refine (proj1 (exp_backoff_attempts fails_twice 5 fresh_world 2 _) _ _ _).
    + lia.
    + vm_compute. lia.
    + intros tr Htr. exists (OtherException "boom"). unfold fails_twice.
      simpl in Htr. by destruct (Nat.ltb_spec (calls tr) 2); [| lia].
    + intros tr Htr. unfold fails_twice.
      simpl in Htr. by destruct (Nat.ltb_spec (calls tr) 2); [lia |].
  - refine (proj2 (exp_backoff_attempts always_fails 1 fresh_world 0 _) _).
    + lia.
    + intros tr. by exists (OtherException "boom").
Defined.

(** *** Backoff waits *)

Lemma wait_before_failed_attempt i acc w j e rest :
  wait_before (S (S i)) acc (failed_attempt w j e ++ rest) = wait_before (S i) (j ^ 2) rest.
Proof.
  unfold failed_attempt, log_events. simpl.
  destruct (level (loggers w root) <=? WARNING); reflexivity.
Qed.

Lemma sleeps_failed_attempt w j e rest :
  sleeps (failed_attempt w j e ++ rest) = j ^ 2 :: sleeps rest.
Proof.
  unfold failed_attempt, log_events.
  destruct (level (loggers w root) <=? WARNING); reflexivity.
Qed.

Lemma failures_failed_attempt w j e rest :
  is_Exception e = true ->
  failures (failed_attempt w j e ++ rest) = S (failures rest).
Proof.
  intros He. unfold failures, failed_attempt, log_events.
  destruct (level (loggers w root) <=? WARNING); simpl;
    rewrite filter_cons_True by (simpl; by rewrite He); reflexivity.
Qed.

Lemma exp_backoff_loop_waits callee : ∀ (n s : nat) w,
  ∃ r seg,
    exp_backoff_loop (invoke callee) (map Z.of_nat (seq s n)) w = (r, app_trace seg w)
    ∧ (∀ i acc, wait_before i acc seg = expected_wait s (calls seg) i acc)
    ∧ sleeps seg = map (fun j => Z.of_nat j ^ 2) (seq s (failures seg)).
Proof.
  induction n as [| n IH]; intros s w; simpl seq; simpl map.
  - exists (Ok tt), []. rewrite app_trace_nil. split; [reflexivity |].
    split; [| reflexivity]. by intros [| [| i]] acc.
  - destruct (callee (trace w)) as [[] | e] eqn:Hc;
      [| destruct (is_Exception e) eqn:He].
    + rewrite exp_backoff_loop_ok by done.
      exists (Ok tt), [EvCall (Ok tt)]. split; [reflexivity |].
      split; [| reflexivity]. by intros [| [| [| i]]] acc.
    + rewrite (exp_backoff_loop_fail _ _ _ _ e) by (done || lia).
      destruct (IH (S s) (app_trace (failed_attempt w (Z.of_nat s) e) w))
        as (r & seg & -> & Hwait & Hsleeps).
      exists r, (failed_attempt w (Z.of_nat s) e ++ seg).
      rewrite app_trace_app. split; [reflexivity |]. split.
      * intros i acc. rewrite calls_app, calls_failed_attempt.
        destruct i as [| [| i]]; [done | done |].
        rewrite wait_before_failed_attempt, Hwait.
        unfold expected_wait. change (1 + calls seg)%nat with (S (calls seg)).
        destruct i as [| i].
        -- change (2 <=? S (calls seg))%nat with (1 <=? calls seg)%nat.
           destruct (1 <=? calls seg)%nat; [| done].
           do 2 f_equal. lia.
        -- change (S (S (S i)) <=? S (calls seg))%nat with (S (S i) <=? calls seg)%nat.
           destruct (S (S i) <=? calls seg)%nat; [| done].
           do 2 f_equal. lia.
      * rewrite sleeps_failed_attempt, failures_failed_attempt by done.
        simpl. by rewrite Hsleeps.
    + rewrite (exp_backoff_loop_propagate _ _ _ _ e) by done.
      exists (Raise e), [EvCall (Raise e)]. split; [reflexivity |]. split.
      * by intros [| [| [| i]]] acc.
      * unfold failures. simpl. rewrite filter_cons_False by (simpl; rewrite He; intros []).
        reflexivity.
Qed.

(** C6, as stated, fails: with three attempts of an operation that always
    fails, the second attempt follows a wait of 0, not of 1. *)
Lemma backoff_wait_counterexample :
  calls three_failures = 3%nat
  ∧ wait_before 2 0 three_failures = Some 0
  ∧ (Z.of_nat 2 - 1) ^ 2 = 1
  ∧ ¬ waits_as_stated three_failures.
Proof.
  split; [reflexivity |]. split; [reflexivity |]. split; [reflexivity |].
  intros H. specialize (H 2%nat). vm_compute in H.
  assert (Hle : (1 ≤ 2 ≤ 3)%nat) by lia.
  specialize (H Hle). discriminate.
Qed.

(** C6, amended. In every execution of [exp_backoff] the sleep that follows
    the [j]-th caught failure (counted from 0) lasts [j²], the last failure
    included; so nothing is slept before the first attempt and the wait
    before attempt [i], for [i] from 2 on, is [(i-2)²]. *)
Theorem exp_backoff_waits callee (N : Z) w :
  ∃ r seg,
    exp_backoff (invoke callee) N w = (r, app_trace seg w)
    ∧ (∀ i : nat,
         wait_before i 0 seg =
           if bool_decide (1 <= i <= calls seg)%nat
           then Some (if bool_decide (i = 1%nat) then 0 else (Z.of_nat i - 2) ^ 2)
           else None)
    ∧ sleeps seg = map (fun j => Z.of_nat j ^ 2) (seq 0 (failures seg)).
Proof.
  destruct (exp_backoff_loop_waits callee (Z.to_nat N) 0 w) as (r & seg & Hrun & Hwait & Hs).
  exists r, seg. split; [exact Hrun |]. split; [| exact Hs].
  intros i. rewrite Hwait. unfold expected_wait.
  destruct i as [| [| i]].
  - rewrite bool_decide_eq_false_2 by lia. reflexivity.
  - destruct (Nat.leb_spec 1 (calls seg)).
    + rewrite bool_decide_eq_true_2 by lia. reflexivity.
    + rewrite bool_decide_eq_false_2 by lia. reflexivity.
  - destruct (Nat.leb_spec (S (S i)) (calls seg)).
    + rewrite bool_decide_eq_true_2 by lia.
      rewrite (bool_decide_eq_false_2 (S (S i) = 1%nat)) by lia.
      do 2 f_equal; lia.
    + rewrite bool_decide_eq_false_2 by lia. reflexivity.
Qed.

Example sleeps_three_failures : sleeps three_failures = [0; 1; 4].
Proof. reflexivity. Qed.

(** ** The scoped logging context

    The context object is the one that the [with] statement itself creates,
    as at both uses in [run]: the body holds no reference to it. *)

Lemma list_remove_notin h l : NoDup l -> h ∉ list_remove h l.
Proof.
  induction 1 as [| x l Hx Hnd IH]; simpl.
  - apply not_elem_of_nil.
  - case_bool_decide as Hxh.
    + by subst.
    + apply not_elem_of_cons. split; [congruence | done].
Qed.

(** C7. Whatever the level override, the sink, the logger and the body, and
    whether the body returns or raises: the [with] statement ends as its body
    ended, with the same exception if any; when a level was given the
    logger's level is again what it was before entry; when a sink was given
    [removeHandler] has taken it off the logger, so that it is no longer
    attached, and it has been closed if [close] is set, as it is by
    default. *)
Theorem logging_context_bracket logger lvl handler close body w :
  let ctx := LoggingContext_init logger lvl handler close in
  let name := default root logger in
  let w_in := snd (LoggingContext_enter ctx w) in
  let w_out := snd (body w_in) in
  let w' := snd (with_LoggingContext ctx body w) in
  fst (with_LoggingContext ctx body w) = fst (body w_in)
  ∧ (is_Some lvl -> level (loggers w' name) = level (loggers w name))
  ∧ (∀ h, handler = Some h ->
       handlers (loggers w' name) = list_remove h (handlers (loggers w_out name))
       ∧ (NoDup (handlers (loggers w_out name)) -> h ∉ handlers (loggers w' name))
       ∧ (close = true -> h ∈ closed w')).
Proof.
  intros ctx name w_in w_out w'.
  unfold w', w_out, w_in, ctx, with_LoggingContext, py_with.
  unfold LoggingContext_enter, LoggingContext_exit, LoggingContext_init, bind, ret.
  clear w' w_out w_in ctx. subst name.
  destruct lvl as [l |], handler as [h |], close; simpl;
    destruct (body _) as [[[] | e] w2]; simpl;
    (split; [reflexivity |]);
    (split; [intros Hl; rewrite ?String.eqb_refl; simpl; try reflexivity; by destruct Hl |]);
    intros h' [= <-]; rewrite ?String.eqb_refl; simpl;
    (split; [reflexivity |]);
    (split; [apply list_remove_notin | intros; try discriminate; set_solver]).
Qed.

Lemma logging_context_bracket_witness :
  fst failing_scope = Raise (OtherException "boom")
  ∧ level (loggers (snd failing_scope) root) = INFO
  ∧ (7%nat ∉ handlers (loggers (snd failing_scope) root))
  ∧ (7%nat ∈ closed (snd failing_scope)).
Proof.
  destruct (logging_context_bracket None (Some DEBUG) (Some 7%nat) true failing_body
              fresh_world) as (Hres & Hlevel & Hsink).
  destruct (Hsink 7%nat eq_refl) as (_ & Hdetached & Hclosed).
  split; [exact Hres |].
  split; [apply Hlevel; by eexists |].
  split; [apply Hdetached; simpl | apply Hclosed; reflexivity].
  apply NoDup_cons_2; [| apply NoDup_singleton].
  apply not_elem_of_cons. split; [discriminate | apply not_elem_of_nil].
Defined.

(** Inside the scope the override is in force: the debug record of the
    body is emitted although the root logger was at INFO. *)
Example logging_context_override_in_force :
  trace (snd (with_LoggingContext (LoggingContext_init None (Some DEBUG) None true)
                failing_body fresh_world)) = [EvLog DEBUG "about to fail"].
Proof. reflexivity. Qed.

(** ** toggle_light *)

Lemma toggle_light_eq hub self l on w :
  toggle_light hub self l on w =
    if accepted (hub (trace w ++ toggle_log w l on) (PUT l on)) then
      if confirms (reread hub w l on) on
      then (Ok tt, set_self_on on (app_trace (verify_events hub w l on) w))
      else (Raise (verify_error (reread hub w l on)), app_trace (verify_events hub w l on) w)
    else (Raise (write_error (hub (trace w ++ toggle_log w l on) (PUT l on))),
          app_trace (write_events hub w l on) w).
Proof.
  unfold toggle_light, bind, logging_info. rewrite logging_log_eq.
  fold (toggle_log w l on).
  unfold requests_send at 1.
  trace_of_app_trace.
  rewrite app_trace_app. fold (write_events hub w l on).
  destruct (hub (trace w ++ toggle_log w l on) (PUT l on)) as [msg | [sc bd]] eqn:Hput;
    [reflexivity |].
  unfold accepted, raise_for_status at 1. cbn [status_code].
  destruct ((400 <=? sc) && (sc <? 600)); [reflexivity |].
  simpl negb. cbv iota. unfold ret at 1. rewrite time_sleep_eq by lia.
  rewrite app_trace_app.
  unfold requests_send.
  trace_of_app_trace.
  fold (reread hub w l on). rewrite app_trace_app, <- app_assoc.
  change ([EvSleep 30] ++ [EvHttp (GET l) (reread hub w l on)])
    with [EvSleep 30; EvHttp (GET l) (reread hub w l on)].
  fold (verify_events hub w l on).
  unfold confirms, reported_on, verify_error.
  destruct (reread hub w l on) as [msg | [sc' bd']]; [reflexivity |].
  unfold raise_for_status. simpl.
  destruct ((400 <=? sc') && (sc' <? 600)); [reflexivity |]. simpl.
  destruct bd' as [v |]; [| reflexivity]. simpl.
  destruct v; try reflexivity. simpl.
  destruct (default (PDict ∅) (d !! "state")); try reflexivity. simpl.
  destruct (py_eq_bool _ on); reflexivity.
Qed.

Lemma write_error_Exception rs : is_Exception (write_error rs) = true.
Proof. by destruct rs. Qed.

Lemma verify_error_Exception rs : is_Exception (verify_error rs) = true.
Proof.
  destruct rs as [msg | [sc bd]]; [done |]. unfold verify_error. simpl.
  destruct ((400 <=? sc) && (sc <? 600)); [done |].
  destruct bd as [[] |]; try done.
  by destruct (default (PDict ∅) (d !! "state")).
Qed.

Lemma accepted_2xx r : 200 <= status_code r < 300 -> accepted (Resp r) = true.
Proof.
  intros H. unfold accepted. apply negb_true_iff, andb_false_iff.
  left. apply Z.leb_gt. lia.
Qed.

(** C4. When the write is answered 2xx, [toggle_light] sleeps 30, then
    reads the light back, in that order; it raises an exception that
    [except Exception] catches whenever the value read back differs from
    the desired one, and whenever the re-read is a transport or HTTP
    error.  When the write itself is a transport or HTTP error it raises
    as well, without re-reading. *)
Theorem toggle_light_verifies hub self l on w :
  (∀ r, hub (trace w ++ toggle_log w l on) (PUT l on) = Resp r ->
        200 <= status_code r < 300 ->
        trace (snd (toggle_light hub self l on w)) =
          trace w ++ toggle_log w l on ++
            [EvHttp (PUT l on) (Resp r); EvSleep 30; EvHttp (GET l) (reread hub w l on)]
        ∧ (∀ v, reported_on (reread hub w l on) = Some v -> py_eq_bool v on = false ->
             ∃ e, fst (toggle_light hub self l on w) = Raise e ∧ is_Exception e = true)
        ∧ (accepted (reread hub w l on) = false ->
             ∃ e, fst (toggle_light hub self l on w) = Raise e ∧ is_Exception e = true))
  ∧ (accepted (hub (trace w ++ toggle_log w l on) (PUT l on)) = false ->
       (∃ e, fst (toggle_light hub self l on w) = Raise e ∧ is_Exception e = true)
       ∧ trace (snd (toggle_light hub self l on w)) = trace w ++ write_events hub w l on).
Proof.
  rewrite toggle_light_eq. split.
  - intros r Hput Hsc. rewrite Hput, (accepted_2xx r Hsc).
    assert (Htr : trace (app_trace (verify_events hub w l on) w) =
                  trace w ++ toggle_log w l on ++
                    [EvHttp (PUT l on) (Resp r); EvSleep 30;
                     EvHttp (GET l) (reread hub w l on)]).
    { trace_of_app_trace.
      unfold verify_events. unfold write_events at 1. rewrite Hput.
      by rewrite <- app_assoc. }
    split; [by destruct (confirms _ on) | split].
    + intros v Hv Hne. unfold confirms. rewrite Hv, Hne. simpl.
      eexists. split; [reflexivity | apply verify_error_Exception].
    + intros Hacc.
      assert (Hc : confirms (reread hub w l on) on = false).
      { unfold confirms, reported_on. unfold accepted in Hacc.
        destruct (reread hub w l on) as [msg | r']; [done |].
        apply negb_false_iff in Hacc. by rewrite Hacc. }
      rewrite Hc. simpl. eexists. split; [reflexivity | apply verify_error_Exception].
  - intros Hacc. rewrite Hacc. simpl. split; [| reflexivity].
    eexists. split; [reflexivity | apply write_error_Exception].
Qed.

Lemma toggle_light_verifies_witness :
  trace (snd (toggle_light hub_stuck_off shim_one_target 7 true fresh_world)) =
    [EvLog INFO "turning on 7"; EvHttp (PUT 7 true) (Resp (mkResponse 200 None));
     EvSleep 30; EvHttp (GET 7) (ok200 (light_state true false))]
  ∧ ∃ e, fst (toggle_light hub_stuck_off shim_one_target 7 true fresh_world) = Raise e
         ∧ is_Exception e = true.
Proof.
  destruct (proj1 (toggle_light_verifies hub_stuck_off shim_one_target 7 true fresh_world)
              (mkResponse 200 None) eq_refl) as (Htrace & Hdiffers & _).
  - simpl. lia.
  - split; [exact Htrace |]. apply (Hdiffers (PBool false)); reflexivity.
Defined.

(** C9. [toggle_light] leaves [self.on] as it was whenever it fails: when
    the write is refused, when the re-read is an error, and when the value
    read back does not match; it assigns the desired value exactly when the
    write went through and the re-read reported a matching value. *)
Theorem toggle_light_state_atomic hub self l on w :
  (accepted (hub (trace w ++ toggle_log w l on) (PUT l on)) = false ->
     is_Ok (fst (toggle_light hub self l on w)) = false
     ∧ self_on (snd (toggle_light hub self l on w)) = self_on w)
  ∧ (accepted (hub (trace w ++ toggle_log w l on) (PUT l on)) = true ->
     reported_on (reread hub w l on) = None ->
     is_Ok (fst (toggle_light hub self l on w)) = false
     ∧ self_on (snd (toggle_light hub self l on w)) = self_on w)
  ∧ (accepted (hub (trace w ++ toggle_log w l on) (PUT l on)) = true ->
     ∀ v, reported_on (reread hub w l on) = Some v ->
       if py_eq_bool v on
       then fst (toggle_light hub self l on w) = Ok tt
            ∧ self_on (snd (toggle_light hub self l on w)) = Some on
       else is_Ok (fst (toggle_light hub self l on w)) = false
            ∧ self_on (snd (toggle_light hub self l on w)) = self_on w).
Proof.
  rewrite toggle_light_eq. unfold confirms. repeat split.
  - by rewrite H.
  - by rewrite H.
  - by rewrite H, H0.
  - by rewrite H, H0.
  - intros Hacc v Hv. rewrite Hacc, Hv. by destruct (py_eq_bool v on).
Qed.

Lemma toggle_light_state_atomic_witness :
  is_Ok (fst (toggle_light hub_stuck_off shim_one_target 7 true (set_self_on false fresh_world)))
    = false
  ∧ self_on (snd (toggle_light hub_stuck_off shim_one_target 7 true
                    (set_self_on false fresh_world))) = Some false.
Proof.
  exact (proj2 (proj2 (toggle_light_state_atomic hub_stuck_off shim_one_target 7 true
                         (set_self_on false fresh_world))) eq_refl (PBool false) eq_refl).
Defined.

(** ** The reconciliation pass *)

Lemma verified_app on a b : verified on (a ++ b) = verified on a || verified on b.
Proof. apply existsb_app. Qed.

Lemma verified_log_events on w lvl msg : verified on (log_events w lvl msg) = false.
Proof. unfold log_events. by destruct (_ <=? _). Qed.

Lemma settle_settle on a b w : settle on b (settle on a w) = settle on (a ++ b) w.
Proof.
  unfold settle. rewrite verified_app.
  destruct (verified on a), (verified on b); simpl;
    rewrite ?set_self_on_app_trace, ?app_trace_app; reflexivity.
Qed.

Lemma settle_app_trace on a b w :
  verified on a = false -> settle on b (app_trace a w) = settle on (a ++ b) w.
Proof.
  intros Ha. unfold settle. rewrite verified_app, Ha. simpl.
  by rewrite app_trace_app.
Qed.

Lemma self_on_settle on seg w :
  self_on (settle on seg w) = if verified on seg then Some on else self_on w.
Proof. unfold settle. by destruct (verified on seg). Qed.

Lemma trace_settle on seg w : trace (settle on seg w) = trace w ++ seg.
Proof. unfold settle. by destruct (verified on seg). Qed.

Lemma loggers_settle on seg w : loggers (settle on seg w) = loggers w.
Proof. unfold settle. by destruct (verified on seg). Qed.

Lemma verified_write_events hub w l on : verified on (write_events hub w l on) = false.
Proof.
  unfold write_events, toggle_log. rewrite verified_app, verified_log_events. reflexivity.
Qed.

Lemma verified_verify_events hub w l on :
  verified on (verify_events hub w l on) = confirms (reread hub w l on) on.
Proof.
  unfold verify_events. rewrite verified_app, verified_write_events. simpl.
  by rewrite orb_false_r.
Qed.

Lemma exp_backoff_loop_toggle hub self l on : ∀ idx w,
  Forall (fun i => 0 <= i) idx ->
  ∃ seg, exp_backoff_loop (toggle_light hub self l on) idx w = (Ok tt, settle on seg w)
         ∧ ((∀ tr l', accepted (hub tr (PUT l' on)) = false) -> verified on seg = false).
Proof.
  induction idx as [| i rest IH]; intros w Hidx.
  - exists []. unfold settle. simpl. by rewrite app_trace_nil.
  - apply Forall_cons in Hidx as [Hi Hrest].
    simpl. unfold try_except. rewrite toggle_light_eq.
    destruct (accepted (hub (trace w ++ toggle_log w l on) (PUT l on))) eqn:Hacc;
      [destruct (confirms (reread hub w l on) on) eqn:Hconf |].
    + exists (verify_events hub w l on). split.
      * unfold settle. by rewrite verified_verify_events, Hconf.
      * intros Hall. by rewrite Hall in Hacc.
    + rewrite verify_error_Exception.
      unfold bind, logging_warning. rewrite logging_log_eq, time_sleep_eq by lia.
      rewrite !app_trace_app.
      match goal with |- context [exp_backoff_loop _ rest (app_trace ?pre w)] =>
        destruct (IH (app_trace pre w) Hrest) as (seg & -> & Hseg);
        exists (pre ++ seg); split;
          [ rewrite settle_app_trace; [reflexivity |] | intros Hall; by rewrite Hall in Hacc ]
      end.
      rewrite !verified_app, verified_verify_events, Hconf, verified_log_events.
      reflexivity.
    + rewrite write_error_Exception.
      unfold bind, logging_warning. rewrite logging_log_eq, time_sleep_eq by lia.
      rewrite !app_trace_app.
      match goal with |- context [exp_backoff_loop _ rest (app_trace ?pre w)] =>
        assert (Hpre : verified on pre = false)
          by (rewrite !verified_app, verified_write_events, verified_log_events;
              reflexivity);
        destruct (IH (app_trace pre w) Hrest) as (seg & -> & Hseg);
        exists (pre ++ seg); split;
          [ by rewrite settle_app_trace
          | intros Hall; rewrite verified_app, Hpre; simpl; by apply Hseg ]
      end.
Qed.

Lemma range_nonneg n : Forall (fun i => 0 <= i) (range n).
Proof. unfold range. apply Forall_forall. intros i Hi. apply list_elem_of_fmap in Hi as (k & -> & _). lia. Qed.

Lemma for_each_toggle hub self on : ∀ targets w,
  ∃ seg, for_each targets (fun light => exp_backoff (toggle_light hub self light on) 3) w
           = (Ok tt, settle on seg w)
         ∧ (targets = [] -> seg = [])
         ∧ ((∀ tr l', accepted (hub tr (PUT l' on)) = false) -> verified on seg = false).
Proof.
  induction targets as [| l rest IH]; intros w.
  - exists []. unfold settle. simpl. by rewrite app_trace_nil.
  - cbn [for_each]. unfold bind. unfold exp_backoff at 1.
    destruct (exp_backoff_loop_toggle hub self l on (range 3) w (range_nonneg 3))
      as (seg1 & -> & H1).
    destruct (IH (settle on seg1 w)) as (seg2 & -> & _ & H2).
    exists (seg1 ++ seg2). rewrite settle_settle. split; [reflexivity |].
    split; [discriminate |]. intros Hall. by rewrite verified_app, H1, H2.
Qed.

Lemma switch_turned_spec hub self on w :
  ∃ seg w', switch_turned hub self on w = (Ok tt, w')
            ∧ trace w' = trace w ++ seg
            ∧ self_on w' = (if verified on seg then Some on else self_on w)
            ∧ (target_light_ids self = [] -> verified on seg = false)
            ∧ ((∀ tr l', accepted (hub tr (PUT l' on)) = false) -> verified on seg = false).
Proof.
  unfold switch_turned, with_LoggingContext, py_with.
  unfold LoggingContext_enter, LoggingContext_init, bind, ret.
  cbn -[logging_log for_each exp_backoff]. unfold logging_info. rewrite logging_log_eq.
  match goal with |- context [for_each _ _ (app_trace ?logs ?w_in)] =>
    destruct (for_each_toggle hub self on (target_light_ids self) (app_trace logs w_in))
      as (seg & -> & Hnil & Hall);
    exists (logs ++ seg)
  end.
  eexists. split; [reflexivity |]. simpl.
  rewrite trace_settle, self_on_settle. simpl.
  split; [by rewrite <- app_assoc |]. split; [reflexivity |].
  split; [intros Hempty; by rewrite (Hnil Hempty) | exact Hall].
Qed.

Lemma run_iteration_eq hub self w b :
  self_on w = Some b ->
  ∃ r segp, lights_reachable hub self (slept w b) = (Ok r, app_trace segp (slept w b))
    ∧ filter is_put segp = []
    ∧ run_iteration hub self w =
        if bool_decide (r = b)
        then logging_debug ("switch still " +:+ on_off b) (app_trace segp (slept w b))
        else switch_turned hub self r (app_trace segp (slept w b)).
Proof.
  intros Hon.
  destruct (lights_reachable_loop_total hub self (trigger_light_ids self) (slept w b))
    as (r & segp & Hrun & Hput).
  exists r, segp. split; [exact Hrun |]. split; [exact Hput |].
  unfold run_iteration, bind, get_self_on. rewrite Hon.
  assert (Hsleep : (if b then time_sleep 30 else time_sleep 5) w = (Ok tt, slept w b))
    by (by destruct b).
  rewrite Hsleep. unfold lights_reachable. rewrite Hrun.
  destruct r; cbn beta; cbn [self_on app_trace slept set_trace]; rewrite Hon;
    by destruct b.
Qed.

Lemma puts_log_events w lvl msg : filter is_put (log_events w lvl msg) = [].
Proof. apply log_events_no_http. Qed.

Lemma run_iteration_transition hub self w b :
  self_on w = Some b ->
  fst (lights_reachable hub self (slept w b)) = Ok (negb b) ->
  ∃ seg w',
    run_iteration hub self w = (Ok tt, w')
    ∧ trace w' = trace (snd (lights_reachable hub self (slept w b))) ++ seg
    ∧ self_on w' = Some (if verified (negb b) seg then negb b else b)
    ∧ (target_light_ids self = [] -> verified (negb b) seg = false)
    ∧ ((∀ tr l, accepted (hub tr (PUT l (negb b))) = false) ->
       verified (negb b) seg = false).
Proof.
  intros Hon Hprobe.
  destruct (run_iteration_eq hub self w b Hon) as (r & segp & Hrun & _ & ->).
  rewrite Hrun in Hprobe |- *. simpl in Hprobe. injection Hprobe as ->.
  rewrite bool_decide_eq_false_2 by (by destruct b).
  destruct (switch_turned_spec hub self (negb b) (app_trace segp (slept w b)))
    as (seg & w' & -> & Htrace & Hstate & Hnil & Hall).
  exists seg, w'. split; [reflexivity |]. split; [exact Htrace |].
  split; [| by split].
  rewrite Hstate. simpl. rewrite Hon. by destruct (verified (negb b) seg).
Qed.

Lemma run_iteration_steady hub self w b :
  self_on w = Some b ->
  fst (lights_reachable hub self (slept w b)) = Ok b ->
  ∃ seg, run_iteration hub self w = (Ok tt, app_trace seg w)
         ∧ filter is_put seg = []
         ∧ self_on (app_trace seg w) = Some b.
Proof.
  intros Hon Hprobe.
  destruct (run_iteration_eq hub self w b Hon) as (r & segp & Hrun & Hput & ->).
  rewrite Hrun in Hprobe. simpl in Hprobe. injection Hprobe as ->.
  rewrite bool_decide_eq_true_2 by done.
  unfold logging_debug. rewrite logging_log_eq. unfold slept. rewrite !app_trace_app.
  eexists. split; [reflexivity |]. split; [| exact Hon].
  rewrite !filter_app, Hput, puts_log_events. by destruct b.
Qed.

(** C1, as stated, fails: the state is OFF, the probe finds the trigger
    reachable, every write to the one target is refused, and the state
    after the pass is still OFF; likewise with no target at all. *)
Lemma transition_state_counterexample :
  self_on world_off = Some false
  ∧ fst (lights_reachable hub_refusing shim_one_target (slept world_off false)) = Ok true
  ∧ self_on (snd (run_iteration hub_refusing shim_one_target world_off)) = Some false
  ∧ self_on (snd (run_iteration hub_obedient shim_no_target world_off)) = Some false
  ∧ ¬ state_follows_probe hub_refusing shim_one_target world_off
  ∧ ¬ state_follows_probe hub_obedient shim_no_target world_off.
Proof.
  repeat split; try reflexivity.
  - intros H. specialize (H false eq_refl eq_refl). vm_compute in H. discriminate.
  - intros H. specialize (H false eq_refl eq_refl). vm_compute in H. discriminate.
Qed.

(** C1, amended. After a pass that takes a transition branch, [self.on] is
    the newly observed value when some re-read of that pass confirmed a
    target write, and is unchanged otherwise; it is unchanged in particular
    when every write is refused and when there is no target. *)
Theorem transition_state_when_verified hub self w b :
  self_on w = Some b ->
  fst (lights_reachable hub self (slept w b)) = Ok (negb b) ->
  ∃ seg w',
    run_iteration hub self w = (Ok tt, w')
    ∧ trace w' = trace (snd (lights_reachable hub self (slept w b))) ++ seg
    ∧ self_on w' = Some (if verified (negb b) seg then negb b else b)
    ∧ (target_light_ids self = [] -> self_on w' = Some b)
    ∧ ((∀ tr l, accepted (hub tr (PUT l (negb b))) = false) -> self_on w' = Some b).
Proof.
  intros Hon Hprobe.
  destruct (run_iteration_transition hub self w b Hon Hprobe)
    as (seg & w' & Hrun & Htrace & Hstate & Hnil & Hall).
  exists seg, w'. repeat split; try done.
  - intros Hempty. by rewrite Hstate, (Hnil Hempty).
  - intros Hrefused. by rewrite Hstate, (Hall Hrefused).
Qed.

Lemma transition_state_when_verified_witness :
  ∃ seg w',
    run_iteration hub_obedient shim_one_target world_off = (Ok tt, w')
    ∧ trace w' =
        trace (snd (lights_reachable hub_obedient shim_one_target (slept world_off false)))
        ++ seg
    ∧ self_on w' = Some (if verified true seg then true else false)
    ∧ (target_light_ids shim_one_target = [] -> self_on w' = Some false)
    ∧ ((∀ tr l, accepted (hub_obedient tr (PUT l true)) = false) -> self_on w' = Some false).
Proof.
  exact (transition_state_when_verified hub_obedient shim_one_target world_off false
           eq_refl eq_refl).
Defined.

Example transition_state_obedient :
  self_on (snd (run_iteration hub_obedient shim_one_target world_off)) = Some true.
Proof. vm_compute. reflexivity. Qed.

(** C5, as stated, fails in its second half: when every write of the first
    pass is refused the state stays OFF, and the second pass, which again
    finds the trigger reachable, issues the writes again. *)
Lemma steady_pass_counterexample :
  fst (lights_reachable hub_refusing shim_one_target (slept world_off false)) = Ok true
  ∧ fst (lights_reachable hub_refusing shim_one_target
           (slept (after_one_pass hub_refusing shim_one_target) false)) = Ok true
  ∧ self_on (after_one_pass hub_refusing shim_one_target) = Some false
  ∧ puts (trace (after_one_pass hub_refusing shim_one_target)) = 3%nat
  ∧ puts (trace (after_two_passes hub_refusing shim_one_target)) = 6%nat
  ∧ ¬ writes_only_on_first_pass hub_refusing shim_one_target world_off.
Proof.
  repeat split; try reflexivity.
  intros H. specialize (H eq_refl eq_refl false eq_refl eq_refl).
  vm_compute in H. discriminate.
Qed.

(** C5, amended. A pass whose probe agrees with [self.on] issues no write
    and leaves [self.on] as it is.  So when the first of two passes turns
    the switch on and one of its re-reads confirmed a write, a second pass
    that finds the trigger reachable again issues no write. *)
Theorem steady_pass_no_writes hub self :
  (∀ w b, self_on w = Some b ->
          fst (lights_reachable hub self (slept w b)) = Ok b ->
          ∃ seg, run_iteration hub self w = (Ok tt, app_trace seg w)
                 ∧ filter is_put seg = []
                 ∧ self_on (app_trace seg w) = Some b)
  ∧ (∀ w w1 seg1,
       self_on w = Some false ->
       fst (lights_reachable hub self (slept w false)) = Ok true ->
       snd (run_iteration hub self w) = w1 ->
       trace w1 = trace (snd (lights_reachable hub self (slept w false))) ++ seg1 ->
       verified true seg1 = true ->
       fst (lights_reachable hub self (slept w1 true)) = Ok true ->
       ∃ seg2, run_iteration hub self w1 = (Ok tt, app_trace seg2 w1)
               ∧ filter is_put seg2 = []
               ∧ self_on (app_trace seg2 w1) = Some true).
Proof.
  split; [apply run_iteration_steady |].
  intros w w1 seg1 Hon Hprobe Hw1 Htrace Hverified Hprobe2.
  apply run_iteration_steady; [| exact Hprobe2].
  destruct (run_iteration_transition hub self w false Hon Hprobe)
    as (seg & w' & Hrun & Htrace' & Hstate & _).
  rewrite Hrun in Hw1. simpl in Hw1. subst w'.
  rewrite Htrace in Htrace'. apply app_inv_head in Htrace'. subst seg.
  rewrite Hstate. simpl. by rewrite Hverified.
Qed.

Lemma steady_pass_no_writes_witness :
  puts (trace (after_one_pass hub_obedient shim_one_target)) = 1%nat
  ∧ ∃ seg2, run_iteration hub_obedient shim_one_target
              (after_one_pass hub_obedient shim_one_target)
            = (Ok tt, app_trace seg2 (after_one_pass hub_obedient shim_one_target))
            ∧ filter is_put seg2 = []
            ∧ self_on (app_trace seg2 (after_one_pass hub_obedient shim_one_target))
              = Some true.
Proof.
  split; [reflexivity |].
  apply (proj2 (steady_pass_no_writes hub_obedient shim_one_target) world_off
           (after_one_pass hub_obedient shim_one_target)
           [EvLog INFO "switch turned on"; EvLog INFO "turning on 7";
            EvHttp (PUT 7 true) (Resp (mkResponse 200 None)); EvSleep 30;
            EvHttp (GET 7) (ok200 (light_state true true))]);
    reflexivity.
Defined.

(** * Further properties *)

Lemma put_requests_app a b : put_requests (a ++ b) = put_requests a ++ put_requests b.
Proof. apply omap_app. Qed.

Lemma sleeps_app a b : sleeps (a ++ b) = sleeps a ++ sleeps b.
Proof. apply omap_app. Qed.

Lemma total_sleep_app a b : total_sleep (a ++ b) = total_sleep a + total_sleep b.
Proof.
  unfold total_sleep. rewrite sleeps_app.
  induction (sleeps a) as [| x xs IH]; simpl; lia.
Qed.

Lemma put_requests_log_events w lvl msg : put_requests (log_events w lvl msg) = [].
Proof. unfold log_events. by destruct (_ <=? _). Qed.

Lemma total_sleep_log_events w lvl msg : total_sleep (log_events w lvl msg) = 0.
Proof. unfold log_events. by destruct (_ <=? _). Qed.

(** ** The probe *)

Lemma lights_reachable_loop_prefix hub self ls : ∀ w,
  ∃ b seg (n : nat),
    lights_reachable_loop hub self ls w = (Ok b, app_trace seg w)
    ∧ put_requests seg = []
    ∧ total_sleep seg = 0
    ∧ queried seg = take n ls.
Proof.
  induction ls as [| l rest IH]; intros w.
  - exists false, [], 0%nat. by rewrite app_trace_nil.
  - rewrite lights_reachable_loop_cons.
    destruct (outcome_of (hub (trace w) (GET l))).
    + by exists true, [EvHttp (GET l) (hub (trace w) (GET l))], 1%nat.
    + destruct (IH (app_trace [EvHttp (GET l) (hub (trace w) (GET l))] w))
        as (b & seg & n & -> & Hput & Hsleep & Hq).
      exists b, ([EvHttp (GET l) (hub (trace w) (GET l))] ++ seg), (S n).
      rewrite app_trace_app. split; [reflexivity |].
      rewrite put_requests_app, total_sleep_app, queried_app, Hput, Hsleep, Hq.
      by repeat split.
    + eexists false, (_ ++ _), 1%nat. rewrite app_trace_app. split; [reflexivity |].
      rewrite put_requests_app, total_sleep_app, queried_app,
        put_requests_log_events, total_sleep_log_events.
      destruct (log_events_no_http
        (app_trace [EvHttp (GET l) (hub (trace w) (GET l))] w) WARNING
        ("unable to get light status: " +:+
           match query_result (hub (trace w) (GET l)) with
           | Raise e => exn_str e | Ok _ => "" end)) as [-> _].
      by repeat split.
Qed.


Lemma lights_reachable_loop_true hub self ls : ∀ w w',
  lights_reachable_loop hub self ls w = (Ok true, w') ->
  ∃ seg l,
    l ∈ ls
    ∧ w' = app_trace (seg ++ [EvHttp (GET l) (hub (trace w ++ seg) (GET l))]) w
    ∧ outcome_of (hub (trace w ++ seg) (GET l)) = Reachable.
Proof.
  induction ls as [| l rest IH]; intros w w' Hrun.
  - discriminate.
  - rewrite lights_reachable_loop_cons in Hrun.
    destruct (outcome_of (hub (trace w) (GET l))) eqn:Hout.
    + injection Hrun as <-. exists [], l. rewrite app_nil_r. simpl.
      split; [apply list_elem_of_here |]. by split.
    + apply IH in Hrun as (seg & l' & Hin & -> & Hreach).
      exists ([EvHttp (GET l) (hub (trace w) (GET l))] ++ seg), l'.
      split; [by apply list_elem_of_further |].
      change (trace (app_trace ?a ?b)) with (trace b ++ a) in Hreach.
      rewrite app_trace_app. trace_of_app_trace.
      rewrite <- !app_assoc in *. by split.
    + discriminate.
Qed.

(** X2. The probe answers [true] only on the strength of a trigger that the
    hub has just reported reachable: its last event is then a query of a
    configured trigger whose answer is read as reachable. *)
Theorem probe_true_only_if_reachable hub self w w' :
  lights_reachable hub self w = (Ok true, w') ->
  ∃ seg l,
    l ∈ trigger_light_ids self
    ∧ w' = app_trace (seg ++ [EvHttp (GET l) (hub (trace w ++ seg) (GET l))]) w
    ∧ outcome_of (hub (trace w ++ seg) (GET l)) = Reachable.
Proof. apply lights_reachable_loop_true. Qed.

Lemma probe_true_only_if_reachable_witness :
  ∃ seg l,
    l ∈ [1; 3]
    ∧ snd (lights_reachable hub_malformed shim_skip_to_reachable fresh_world) =
        app_trace (seg ++ [EvHttp (GET l) (hub_malformed (trace fresh_world ++ seg) (GET l))])
          fresh_world
    ∧ outcome_of (hub_malformed (trace fresh_world ++ seg) (GET l)) = Reachable.
Proof.
  apply (probe_true_only_if_reachable hub_malformed shim_skip_to_reachable fresh_world).
  reflexivity.
Defined.

(** ** The retry utility *)

Lemma foldr_add_app (a b : list Z) :
  foldr Z.add 0 (a ++ b) = foldr Z.add 0 a + foldr Z.add 0 b.
Proof. induction a as [| x xs IH]; simpl; lia. Qed.

Lemma sum_squares (m : nat) :
  6 * foldr Z.add 0 (map (fun j => Z.of_nat j ^ 2) (seq 0 m)) =
  (Z.of_nat m - 1) * Z.of_nat m * (2 * Z.of_nat m - 1).
Proof.
  induction m as [| m IH]; [reflexivity |].
  rewrite seq_S, map_app, foldr_add_app. simpl foldr. simpl Nat.add.
  rewrite Z.mul_add_distr_l, IH. nia.
Qed.

Lemma exp_backoff_loop_ends callee : ∀ (n s : nat) w,
  ∃ r seg,
    exp_backoff_loop (invoke callee) (map Z.of_nat (seq s n)) w = (r, app_trace seg w)
    ∧ sleeps seg = map (fun j => Z.of_nat j ^ 2) (seq s (failures seg))
    ∧ ((r = Ok tt ∧ calls seg = S (failures seg) ∧ last seg = Some (EvCall (Ok tt))
        ∧ (failures seg < n)%nat)
       ∨ (∃ e, r = Raise e ∧ is_Exception e = false ∧ calls seg = S (failures seg)
               ∧ last seg = Some (EvCall (Raise e)) ∧ (failures seg < n)%nat)
       ∨ (r = Ok tt ∧ calls seg = failures seg ∧ failures seg = n)).
Proof.
  induction n as [| n IH]; intros s w; simpl seq; simpl map.
  - exists (Ok tt), []. rewrite app_trace_nil. split; [reflexivity |].
    split; [reflexivity |]. right. right. by repeat split.
  - destruct (callee (trace w)) as [[] | e] eqn:Hc;
      [| destruct (is_Exception e) eqn:He].
    + rewrite exp_backoff_loop_ok by done.
      exists (Ok tt), [EvCall (Ok tt)]. split; [reflexivity |].
      split; [reflexivity |]. left. repeat split. unfold failures. simpl. lia.
    + rewrite (exp_backoff_loop_fail _ _ _ _ e) by (done || lia).
      destruct (IH (S s) (app_trace (failed_attempt w (Z.of_nat s) e) w))
        as (r & seg & -> & Hsleeps & Hend).
      exists r, (failed_attempt w (Z.of_nat s) e ++ seg).
      rewrite app_trace_app. split; [reflexivity |].
      rewrite sleeps_failed_attempt, failures_failed_attempt, calls_app,
        calls_failed_attempt by done.
      split; [simpl; by rewrite Hsleeps |].
      assert (Hlast : ∀ x, last seg = Some x ->
                           last (failed_attempt w (Z.of_nat s) e ++ seg) = Some x).
      { intros x Hx. rewrite last_app, Hx. reflexivity. }
      destruct Hend as [(-> & Hcalls & Hl & Hlt) | [(e' & -> & He' & Hcalls & Hl & Hlt)
                                                   | (-> & Hcalls & Hn)]].
      * left. repeat split; [lia | by apply Hlast | lia].
      * right. left. exists e'. repeat split; [done | lia | by apply Hlast | lia].
      * right. right. repeat split; lia.
    + rewrite (exp_backoff_loop_propagate _ _ _ _ e) by done.
      exists (Raise e), [EvCall (Raise e)]. split; [reflexivity |].
      assert (Hf : failures [EvCall (Raise e)] = 0%nat).
      { unfold failures. rewrite filter_cons_False by (simpl; rewrite He; intros []).
        reflexivity. }
      rewrite Hf. split; [reflexivity |].
      right. left. exists e. repeat split; [done | lia].
Qed.

(** X3. However the operation behaves, [exp_backoff] ends in one of three
    ways: on a successful attempt, which is then the last event and follows
    fewer failures than the bound; on an attempt that raised something
    [except Exception] does not catch, which is propagated; or with as many
    caught failures as the bound allows, returning normally.  It never makes
    more attempts than [tries]. *)
Theorem exp_backoff_outcome callee (N : Z) w :
  ∃ r seg,
    exp_backoff (invoke callee) N w = (r, app_trace seg w)
    ∧ (calls seg <= Z.to_nat N)%nat
    ∧ ((r = Ok tt ∧ calls seg = S (failures seg) ∧ last seg = Some (EvCall (Ok tt)))
       ∨ (∃ e, r = Raise e ∧ is_Exception e = false ∧ calls seg = S (failures seg)
               ∧ last seg = Some (EvCall (Raise e)))
       ∨ (r = Ok tt ∧ calls seg = failures seg ∧ failures seg = Z.to_nat N)).
Proof.
  destruct (exp_backoff_loop_ends callee (Z.to_nat N) 0 w) as (r & seg & Hrun & _ & Hend).
  exists r, seg. split; [exact Hrun |].
  destruct Hend as [(-> & Hcalls & Hl & Hlt) | [(e & -> & He & Hcalls & Hl & Hlt)
                                               | (-> & Hcalls & Hn)]].
  - split; [lia |]. by left.
  - split; [lia |]. right. left. by exists e.
  - split; [lia |]. right. by right.
Qed.

(** X4. With a bound of zero or less the operation is never invoked:
    [exp_backoff] returns at once and the world is untouched. *)
Theorem exp_backoff_nonpositive (f : M unit) (N : Z) w :
  N <= 0 -> exp_backoff f N w = (Ok tt, w).
Proof.
  intros HN. unfold exp_backoff, range.
  replace (Z.to_nat N) with 0%nat by lia. reflexivity.
Qed.

Lemma exp_backoff_nonpositive_witness :
  exp_backoff (invoke always_fails) (-2) fresh_world = (Ok tt, fresh_world).
Proof. apply exp_backoff_nonpositive. lia. Defined.

(** X5. The time one call of [exp_backoff] spends in backoff is the sum of
    the squares below its number [m] of caught failures,
    [(m-1)m(2m-1)/6], and [m] is at most the bound. *)
Theorem exp_backoff_total_sleep callee (N : Z) w :
  ∃ r seg,
    exp_backoff (invoke callee) N w = (r, app_trace seg w)
    ∧ (failures seg <= Z.to_nat N)%nat
    ∧ 6 * total_sleep seg =
        (Z.of_nat (failures seg) - 1) * Z.of_nat (failures seg)
        * (2 * Z.of_nat (failures seg) - 1).
Proof.
  destruct (exp_backoff_loop_ends callee (Z.to_nat N) 0 w) as (r & seg & Hrun & Hs & Hend).
  exists r, seg. split; [exact Hrun |]. split.
  - destruct Hend as [(_ & _ & _ & Hlt) | [(e & _ & _ & _ & _ & Hlt) | (_ & _ & Hn)]]; lia.
  - unfold total_sleep. rewrite Hs. apply sum_squares.
Qed.

Example total_sleep_three_failures : total_sleep three_failures = 5.
Proof. reflexivity. Qed.

(** ** The scoped logging context *)

Lemma eqb_other (other name : string) : other ≠ name -> String.eqb other name = false.
Proof. intros H. by apply String.eqb_neq. Qed.

(** X6. On entry the context never raises; inside the scope the level
    override is in force on the chosen logger and the sink is attached to
    it, every other logger is as it was, and nothing else in the world has
    changed. *)
Theorem logging_context_entry logger lvl handler close w :
  let ctx := LoggingContext_init logger lvl handler close in
  let name := default root logger in
  let w_in := snd (LoggingContext_enter ctx w) in
  is_Ok (fst (LoggingContext_enter ctx w)) = true
  ∧ (∀ l, lvl = Some l -> level (loggers w_in name) = l)
  ∧ (lvl = None -> level (loggers w_in name) = level (loggers w name))
  ∧ (∀ h, handler = Some h -> h ∈ handlers (loggers w_in name))
  ∧ (handler = None -> handlers (loggers w_in name) = handlers (loggers w name))
  ∧ (∀ other, other ≠ name -> loggers w_in other = loggers w other)
  ∧ trace w_in = trace w ∧ closed w_in = closed w ∧ self_on w_in = self_on w.
Proof.
  intros ctx name w_in. unfold w_in, ctx, name.
  unfold LoggingContext_enter, LoggingContext_init, bind, ret.
  clear w_in ctx name.
  destruct lvl as [l |], handler as [h |]; simpl; rewrite ?String.eqb_refl; simpl;
    repeat split; try done;
    try (intros ? [= <-]); try (intros other Hother; by rewrite (eqb_other _ _ Hother));
    try intros _; try reflexivity;
    case_bool_decide; simpl; try done; set_solver.
Qed.

(** X7. Apart from the level and the sink of its own logger, the [with]
    statement leaves the world as its body left it: the other loggers, the
    history and [self.on] are untouched, and the closed handlers are those
    the body closed plus the sink, when one was given and [close] is set. *)
Theorem logging_context_frame logger lvl handler close body w :
  let ctx := LoggingContext_init logger lvl handler close in
  let name := default root logger in
  let w_out := snd (body (snd (LoggingContext_enter ctx w))) in
  let w' := snd (with_LoggingContext ctx body w) in
  (∀ other, other ≠ name -> loggers w' other = loggers w_out other)
  ∧ trace w' = trace w_out
  ∧ self_on w' = self_on w_out
  ∧ closed w' =
      match handler with
      | Some h => if close then {[h]} ∪ closed w_out else closed w_out
      | None => closed w_out
      end.
Proof.
  intros ctx name w_out w'.
  unfold w', w_out, ctx, name, with_LoggingContext, py_with.
  unfold LoggingContext_enter, LoggingContext_exit, LoggingContext_init, bind, ret.
  clear w' w_out ctx name.
  destruct lvl as [l |], handler as [h |], close; simpl;
    destruct (body _) as [[[] | e] w2]; simpl;
    repeat split; try done;
    intros other Hother; by rewrite ?(eqb_other _ _ Hother).
Qed.

(** X8. A context with neither a level nor a sink is transparent: the
    [with] statement is its body. *)
Theorem logging_context_transparent logger close body w :
  with_LoggingContext (LoggingContext_init logger None None close) body w = body w.
Proof.
  unfold with_LoggingContext, py_with.
  unfold LoggingContext_enter, LoggingContext_exit, LoggingContext_init, bind, ret.
  simpl. by destruct (body w) as [[[] | e] w2].
Qed.

Lemma list_remove_elem_of h l : h ∈ l -> list_remove h l ≠ l.
Proof.
  intros Hin Heq. apply (f_equal length) in Heq. revert Hin Heq.
  induction l as [| x l IH]; simpl; intros Hin Heq.
  - by apply elem_of_nil in Hin.
  - case_bool_decide as Hx; simpl in Heq; [lia |].
    apply elem_of_cons in Hin as [-> | Hin]; [done |].
    apply IH; [done | lia].
Qed.

(** X9. The context is not a bracket for the sink: a sink that was already
    attached to the logger before entry is taken off on exit all the same,
    so the logger ends with one handler fewer than it started with. *)
Theorem logging_context_drops_attached_sink logger lvl h close body w :
  let ctx := LoggingContext_init logger lvl (Some h) close in
  let name := default root logger in
  let w_in := snd (LoggingContext_enter ctx w) in
  let w' := snd (with_LoggingContext ctx body w) in
  h ∈ handlers (loggers w name) ->
  handlers (loggers (snd (body w_in)) name) = handlers (loggers w_in name) ->
  handlers (loggers w' name) = list_remove h (handlers (loggers w name))
  ∧ handlers (loggers w' name) ≠ handlers (loggers w name).
Proof.
  intros ctx name w_in w' Hin Hbody.
  assert (Hentry : handlers (loggers w_in name) = handlers (loggers w name)).
  { unfold w_in, ctx, name in *.
    unfold LoggingContext_enter, LoggingContext_init, bind, ret.
    destruct lvl as [l |]; simpl; rewrite ?String.eqb_refl; simpl;
      by rewrite bool_decide_eq_true_2. }
  assert (Hexit : handlers (loggers w' name) =
                  list_remove h (handlers (loggers (snd (body w_in)) name))).
  { unfold w', w_in, ctx, name, with_LoggingContext, py_with.
    unfold LoggingContext_enter, LoggingContext_exit, LoggingContext_init, bind, ret.
    clear.
    destruct lvl as [l |], close; simpl;
      destruct (body _) as [[[] | e] w2]; simpl; by rewrite ?String.eqb_refl. }
  rewrite Hexit, Hbody, Hentry. split; [reflexivity |].
  by apply list_remove_elem_of.
Qed.

(** The root logger of [fresh_world] already carries handler 0. *)
Lemma logging_context_drops_attached_sink_witness :
  handlers (loggers fresh_world root) = [0%nat]
  ∧ handlers (loggers (snd (with_LoggingContext
                              (LoggingContext_init None None (Some 0%nat) false)
                              (logging_debug "in scope") fresh_world)) root) = [].
Proof.
  split; [reflexivity |].
  apply (logging_context_drops_attached_sink None None 0%nat false
           (logging_debug "in scope") fresh_world).
  - apply list_elem_of_here.
  - reflexivity.
Defined.

(** ** toggle_light *)

Lemma queried_log_events w lvl msg : queried (log_events w lvl msg) = [].
Proof. apply log_events_no_http. Qed.

Lemma write_events_shape hub w l on :
  put_requests (write_events hub w l on) = [(l, on)]
  ∧ queried (write_events hub w l on) = []
  ∧ total_sleep (write_events hub w l on) = 0.
Proof.
  unfold write_events, toggle_log.
  rewrite put_requests_app, queried_app, total_sleep_app,
    put_requests_log_events, queried_log_events, total_sleep_log_events.
  by repeat split.
Qed.

Lemma verify_events_shape hub w l on :
  put_requests (verify_events hub w l on) = [(l, on)]
  ∧ queried (verify_events hub w l on) = [l]
  ∧ total_sleep (verify_events hub w l on) = 30.
Proof.
  unfold verify_events.
  destruct (write_events_shape hub w l on) as (Hp & Hq & Hs).
  rewrite put_requests_app, queried_app, total_sleep_app, Hp, Hq, Hs.
  by repeat split.
Qed.

(** X10. Whatever the hub answers, one call of [toggle_light] sends exactly
    one write, for the given light and value; when the write is accepted it
    sleeps 30 and re-reads that light once, and otherwise it neither sleeps
    nor reads. *)
Theorem toggle_light_requests hub self l on w :
  ∃ seg,
    trace (snd (toggle_light hub self l on w)) = trace w ++ seg
    ∧ put_requests seg = [(l, on)]
    ∧ (if accepted (hub (trace w ++ toggle_log w l on) (PUT l on))
       then queried seg = [l] ∧ total_sleep seg = 30
       else queried seg = [] ∧ total_sleep seg = 0).
Proof.
  rewrite toggle_light_eq.
  destruct (write_events_shape hub w l on) as (Hp & Hq & Hs).
  destruct (verify_events_shape hub w l on) as (Hp' & Hq' & Hs').
  destruct (accepted _).
  - exists (verify_events hub w l on). by destruct (confirms _ on).
  - by exists (write_events hub w l on).
Qed.

(** ** The transition block *)

Lemma exp_backoff_loop_toggle_shape hub self l on : ∀ idx w,
  Forall (fun i => 0 <= i) idx ->
  ∃ seg (k : nat),
    exp_backoff_loop (toggle_light hub self l on) idx w = (Ok tt, settle on seg w)
    ∧ put_requests seg = replicate k (l, on)
    ∧ (k <= length idx)%nat
    ∧ (idx ≠ [] -> (1 <= k)%nat)
    ∧ Forall (fun x => x = l) (queried seg)
    ∧ 0 <= total_sleep seg <= sleep_budget idx.
Proof.
  induction idx as [| i rest IH]; intros w Hidx.
  - exists [], 0%nat. unfold settle. simpl. rewrite app_trace_nil.
    repeat split; try done. all: unfold total_sleep; simpl; lia.
  - apply Forall_cons in Hidx as [Hi Hrest].
    destruct (write_events_shape hub w l on) as (Hp & Hq & Hs).
    destruct (verify_events_shape hub w l on) as (Hp' & Hq' & Hs').
    assert (Hbudget : 0 <= sleep_budget rest).
    { clear -Hrest. induction Hrest as [| x xs Hx _ IHx]; simpl; [lia | nia]. }
    simpl exp_backoff_loop. unfold try_except. rewrite toggle_light_eq.
    destruct (accepted (hub (trace w ++ toggle_log w l on) (PUT l on))) eqn:Hacc;
      [destruct (confirms (reread hub w l on) on) eqn:Hconf |].
    + exists (verify_events hub w l on), 1%nat. split.
      { unfold settle. by rewrite verified_verify_events, Hconf. }
      rewrite Hp', Hq', Hs'. simpl.
      repeat split; try done; try lia. by repeat constructor.
    + rewrite verify_error_Exception.
      unfold bind, logging_warning. rewrite logging_log_eq, time_sleep_eq by lia.
      rewrite !app_trace_app.
      match goal with |- context [exp_backoff_loop _ rest (app_trace ?pre w)] =>
        destruct (IH (app_trace pre w) Hrest) as (seg & k & -> & Hput & Hk & _ & Hq0 & Hsl);
        exists (pre ++ seg), (S k); split;
          [ rewrite settle_app_trace; [reflexivity |];
            rewrite !verified_app, verified_verify_events, Hconf, verified_log_events;
            reflexivity |]
      end.
      rewrite !put_requests_app, !queried_app, !total_sleep_app, Hp', Hq', Hs', Hput,
        put_requests_log_events, queried_log_events, total_sleep_log_events.
      change (total_sleep [EvSleep (i ^ 2)]) with (i ^ 2 + 0).
      assert (0 <= i ^ 2) by (apply Z.pow_nonneg; lia). simpl.
      repeat split; try done; try lia. by constructor.
    + rewrite write_error_Exception.
      unfold bind, logging_warning. rewrite logging_log_eq, time_sleep_eq by lia.
      rewrite !app_trace_app.
      match goal with |- context [exp_backoff_loop _ rest (app_trace ?pre w)] =>
        destruct (IH (app_trace pre w) Hrest) as (seg & k & -> & Hput & Hk & _ & Hq0 & Hsl);
        exists (pre ++ seg), (S k); split;
          [ rewrite settle_app_trace; [reflexivity |];
            rewrite !verified_app, verified_write_events, verified_log_events;
            reflexivity |]
      end.
      rewrite !put_requests_app, !queried_app, !total_sleep_app, Hp, Hq, Hs, Hput,
        put_requests_log_events, queried_log_events, total_sleep_log_events.
      change (total_sleep [EvSleep (i ^ 2)]) with (i ^ 2 + 0).
      assert (0 <= i ^ 2) by (apply Z.pow_nonneg; lia). simpl.
      repeat split; try done; try lia.
Qed.

Lemma for_each_toggle_shape hub self on : ∀ targets w,
  ∃ seg ks,
    for_each targets (fun light => exp_backoff (toggle_light hub self light on) 3) w
      = (Ok tt, settle on seg w)
    ∧ length ks = length targets
    ∧ Forall (fun k => (1 <= k <= 3)%nat) ks
    ∧ put_requests seg = writes_of targets ks on
    ∧ Forall (fun x => x ∈ targets) (queried seg)
    ∧ 0 <= total_sleep seg <= 95 * Z.of_nat (length targets).
Proof.
  induction targets as [| l rest IH]; intros w.
  - exists [], []. unfold settle. simpl. rewrite app_trace_nil.
    repeat split; try done. all: unfold total_sleep; simpl; lia.
  - cbn [for_each]. unfold bind. unfold exp_backoff at 1.
    destruct (exp_backoff_loop_toggle_shape hub self l on (range 3) w (range_nonneg 3))
      as (seg1 & k & -> & Hput1 & Hk & Hk1 & Hq1 & Hs1).
    destruct (IH (settle on seg1 w)) as (seg2 & ks & -> & Hlen & Hks & Hput2 & Hq2 & Hs2).
    exists (seg1 ++ seg2), (k :: ks). rewrite settle_settle. split; [reflexivity |].
    change (sleep_budget (range 3)) with 95 in Hs1.
    change (length (range 3)) with 3%nat in Hk.
    rewrite put_requests_app, queried_app, total_sleep_app, Hput1, Hput2.
    split; [simpl; lia |]. split.
    { constructor; [| done]. split; [by apply Hk1 | done]. }
    split; [reflexivity |]. split.
    { apply Forall_app. split.
      - eapply Forall_impl; [exact Hq1 |]. intros x ->. apply list_elem_of_here.
      - eapply Forall_impl; [exact Hq2 |]. intros x Hx. by apply list_elem_of_further. }
    rewrite length_cons. lia.
Qed.

Lemma switch_turned_shape hub self on w :
  ∃ seg ks w',
    switch_turned hub self on w = (Ok tt, w')
    ∧ trace w' = trace w ++ EvLog INFO ("switch turned " +:+ on_off on) :: seg
    ∧ same_logging w w'
    ∧ self_on w' = (if verified on seg then Some on else self_on w)
    ∧ length ks = length (target_light_ids self)
    ∧ Forall (fun k => (1 <= k <= 3)%nat) ks
    ∧ put_requests seg = writes_of (target_light_ids self) ks on
    ∧ Forall (fun x => x ∈ target_light_ids self) (queried seg)
    ∧ 0 <= total_sleep seg <= 95 * Z.of_nat (length (target_light_ids self)).
Proof.
  unfold switch_turned, with_LoggingContext, py_with.
  unfold LoggingContext_enter, LoggingContext_init, bind, ret.
  cbn -[logging_log for_each exp_backoff]. unfold logging_info. rewrite logging_log_eq.
  match goal with |- context [for_each _ _ (app_trace ?logs ?w_in)] =>
    destruct (for_each_toggle_shape hub self on (target_light_ids self) (app_trace logs w_in))
      as (seg & ks & -> & Hlen & Hks & Hput & Hq & Hs)
  end.
  exists seg, ks. eexists. split; [reflexivity |]. simpl.
  rewrite trace_settle, self_on_settle. simpl.
  split; [by rewrite <- app_assoc |]. split.
  { split.
    - intros name. simpl. rewrite loggers_settle. simpl.
      destruct (String.eqb_spec name root) as [-> | Hne]; [| reflexivity].
      simpl. by destruct (loggers w root).
    - simpl. unfold settle. by destruct (verified on seg). }
  repeat (split; [done |]). done.
Qed.

Lemma run_iteration_shape hub self w b :
  self_on w = Some b ->
  ∃ r segp segt ks w',
    lights_reachable hub self (slept w b) = (Ok r, app_trace segp (slept w b))
    ∧ run_iteration hub self w = (Ok tt, w')
    ∧ trace w' = trace w ++ EvSleep (if b then 30 else 5) :: segp ++ segt
    ∧ same_logging w w'
    ∧ (self_on w' = Some b ∨ self_on w' = Some r)
    ∧ put_requests segp = [] ∧ total_sleep segp = 0
    ∧ (∃ n : nat, queried segp = take n (trigger_light_ids self))
    ∧ length ks = length (target_light_ids self)
    ∧ Forall (fun k => (1 <= k <= 3)%nat) ks
    ∧ put_requests segt =
        (if bool_decide (r = b) then [] else writes_of (target_light_ids self) ks r)
    ∧ Forall (fun x => x ∈ target_light_ids self) (queried segt)
    ∧ 0 <= total_sleep segt
      <= (if bool_decide (r = b) then 0 else 95 * Z.of_nat (length (target_light_ids self))).
Proof.
  intros Hon.
  destruct (lights_reachable_loop_prefix hub self (trigger_light_ids self) (slept w b))
    as (r & segp & n & Hprobe & Hputp & Hsleepp & Hqp).
  destruct (run_iteration_eq hub self w b Hon) as (r' & segp' & Hprobe' & _ & ->).
  unfold lights_reachable in Hprobe'. rewrite Hprobe in Hprobe'.
  injection Hprobe' as <- Htr. apply app_inv_head in Htr. subst segp'.
  exists r, segp.
  case_bool_decide as Hrb.
  - subst r. unfold logging_debug. rewrite logging_log_eq.
    eexists _, (replicate (length (target_light_ids self)) 1%nat), _.
    split; [exact Hprobe |]. split; [reflexivity |].
    split; [simpl; by rewrite <- !app_assoc |].
    split; [by split |]. split; [by left |].
    split; [done |]. split; [done |]. split; [by exists n |].
    split; [by rewrite length_replicate |].
    split; [apply Forall_replicate; lia |].
    rewrite put_requests_log_events, queried_log_events, total_sleep_log_events.
    by repeat split.
  - destruct (switch_turned_shape hub self r (app_trace segp (slept w b)))
      as (seg & ks & w' & -> & Htrace & Hlog & Hstate & Hlen & Hks & Hput & Hq & Hs).
    exists (EvLog INFO ("switch turned " +:+ on_off r) :: seg), ks, w'.
    split; [exact Hprobe |]. split; [reflexivity |].
    split; [rewrite Htrace; simpl; by rewrite <- !app_assoc |].
    split; [exact Hlog |]. split.
    { rewrite Hstate. simpl. rewrite Hon. destruct (verified r seg); [by right | by left]. }
    split; [done |]. split; [done |]. split; [by exists n |].
    repeat (split; [done |]). exact Hs.
Qed.

(** ** Passes of the loop *)

(** X11. In every pass the requests are these: first a query of a prefix of
    the triggers; then no write at all when the probe agrees with
    [self.on], and otherwise, for each target in configured order, between
    one and three writes of the probed value, with re-reads of targets
    only.  No other light is written and the other value is never
    written. *)
Theorem pass_requests hub self w b :
  self_on w = Some b ->
  ∃ r segp segt ks (n : nat),
    fst (lights_reachable hub self (slept w b)) = Ok r
    ∧ trace (snd (run_iteration hub self w)) =
        trace w ++ EvSleep (if b then 30 else 5) :: segp ++ segt
    ∧ put_requests segp = []
    ∧ queried segp = take n (trigger_light_ids self)
    ∧ length ks = length (target_light_ids self)
    ∧ Forall (fun k => (1 <= k <= 3)%nat) ks
    ∧ put_requests segt =
        (if bool_decide (r = b) then [] else writes_of (target_light_ids self) ks r)
    ∧ Forall (fun x => x ∈ target_light_ids self) (queried segt).
Proof.
  intros Hon.
  destruct (run_iteration_shape hub self w b Hon)
    as (r & segp & segt & ks & w' & Hprobe & Hrun & Htrace & _ & _ & Hputp & _
        & (n & Hqp) & Hlen & Hks & Hput & Hq & _).
  exists r, segp, segt, ks, n. rewrite Hprobe, Hrun. simpl.
  by repeat (split; [done |]).
Qed.

(** X12. A pass sleeps at least its polling interval, 30 when [self.on] and 5
    otherwise, and at most 95 more for each target: three settle delays of
    30 and the backoff waits 0, 1 and 4.  A pass whose probe agrees with
    [self.on] sleeps the polling interval and no more. *)
Theorem pass_sleep_bound hub self w b :
  self_on w = Some b ->
  ∃ r seg,
    fst (lights_reachable hub self (slept w b)) = Ok r
    ∧ trace (snd (run_iteration hub self w)) = trace w ++ seg
    ∧ (if b then 30 else 5) <= total_sleep seg
        <= (if b then 30 else 5) + 95 * Z.of_nat (length (target_light_ids self))
    ∧ (r = b -> total_sleep seg = if b then 30 else 5).
Proof.
  intros Hon.
  destruct (run_iteration_shape hub self w b Hon)
    as (r & segp & segt & ks & w' & Hprobe & Hrun & Htrace & _ & _ & _ & Hsp
        & _ & _ & _ & _ & _ & Hs).
  exists r, (EvSleep (if b then 30 else 5) :: segp ++ segt).
  rewrite Hprobe, Hrun. simpl. split; [done |]. split; [done |].
  change (EvSleep (if b then 30 else 5) :: segp ++ segt)
    with ([EvSleep (if b then 30 else 5)] ++ segp ++ segt).
  rewrite !total_sleep_app, Hsp.
  change (total_sleep [EvSleep (if b then 30 else 5)]) with ((if b then 30 else 5) + 0).
  split.
  - case_bool_decide; lia.
  - intros ->. rewrite bool_decide_eq_true_2 in Hs by done. lia.
Qed.

Lemma pass_requests_witness :
  ∃ r segp segt ks (n : nat),
    fst (lights_reachable hub_refusing shim_one_target (slept world_off false)) = Ok r
    ∧ trace (snd (run_iteration hub_refusing shim_one_target world_off)) =
        trace world_off ++ EvSleep 5 :: segp ++ segt
    ∧ put_requests segp = []
    ∧ queried segp = take n [2]
    ∧ length ks = 1%nat
    ∧ Forall (fun k => (1 <= k <= 3)%nat) ks
    ∧ put_requests segt = (if bool_decide (r = false) then [] else writes_of [7] ks r)
    ∧ Forall (fun x => x ∈ [7]) (queried segt).
Proof. exact (pass_requests hub_refusing shim_one_target world_off false eq_refl). Defined.

Example refused_pass_writes :
  put_requests (trace (snd (run_iteration hub_refusing shim_one_target world_off)))
  = [(7, true); (7, true); (7, true)].
Proof. reflexivity. Qed.

Lemma pass_sleep_bound_witness :
  ∃ r seg,
    fst (lights_reachable hub_refusing shim_one_target (slept world_off false)) = Ok r
    ∧ trace (snd (run_iteration hub_refusing shim_one_target world_off)) =
        trace world_off ++ seg
    ∧ 5 <= total_sleep seg <= 5 + 95 * Z.of_nat 1
    ∧ (r = false -> total_sleep seg = 5).
Proof. exact (pass_sleep_bound hub_refusing shim_one_target world_off false eq_refl). Defined.

Example obedient_pass_sleep :
  total_sleep (trace (snd (run_iteration hub_obedient shim_one_target world_off))) = 35.
Proof. reflexivity. Qed.

Lemma same_logging_refl w : same_logging w w.
Proof. by split. Qed.

Lemma same_logging_trans w1 w2 w3 :
  same_logging w1 w2 -> same_logging w2 w3 -> same_logging w1 w3.
Proof.
  intros [H1 H1'] [H2 H2']. split.
  - intros name. by rewrite H2, H1.
  - by rewrite H2', H1'.
Qed.

Lemma run_loop_invariant hub self : ∀ (fuel : nat) w b,
  self_on w = Some b ->
  ∃ w' b', run_loop hub self fuel w = (Ok tt, w')
           ∧ self_on w' = Some b'
           ∧ same_logging w w'.
Proof.
  induction fuel as [| fuel IH]; intros w b Hon.
  - exists w, b. by repeat split.
  - destruct (run_iteration_shape hub self w b Hon)
      as (r & segp & segt & ks & w1 & _ & Hrun & _ & Hlog & Hstate & _).
    assert (Hon1 : ∃ b1, self_on w1 = Some b1) by (destruct Hstate; eauto).
    destruct Hon1 as [b1 Hon1].
    destruct (IH w1 b1 Hon1) as (w' & b' & Hloop & Hon' & Hlog').
    exists w', b'. cbn [run_loop]. unfold bind. rewrite Hrun.
    split; [exact Hloop |]. split; [exact Hon' |].
    by apply (same_logging_trans w w1 w').
Qed.

(** X13. Once [self.on] is assigned, [run] never raises, whatever the hub
    answers and however long it runs: every pass ends normally and leaves
    [self.on] assigned. *)
Theorem run_never_raises hub self (fuel : nat) w b :
  self_on w = Some b ->
  ∃ w' b', run hub self fuel w = (Ok tt, w') ∧ self_on w' = Some b'.
Proof.
  intros Hon. unfold run, bind, get_self_on. rewrite Hon.
  unfold logging_info. rewrite logging_log_eq.
  destruct (run_loop_invariant hub self fuel
              (app_trace (log_events w INFO
                 ("started switch shim (position " +:+ on_off b +:+ ")")) w) b Hon)
    as (w' & b' & Hloop & Hon' & _).
  by exists w', b'.
Qed.

Lemma run_never_raises_witness :
  ∃ w' b', run hub_refusing shim_one_target 3 world_off = (Ok tt, w')
           ∧ self_on w' = Some b'.
Proof. exact (run_never_raises hub_refusing shim_one_target 3 world_off false eq_refl). Defined.



(** X15. While the hub refuses every write, [self.on] never changes, however
    many passes run and whatever the probes report. *)
Theorem refused_writes_freeze_state hub self (fuel : nat) w b :
  (∀ tr l on, accepted (hub tr (PUT l on)) = false) ->
  self_on w = Some b ->
  self_on (snd (run_loop hub self fuel w)) = Some b.
Proof.
  intros Hrefused. revert w. induction fuel as [| fuel IH]; intros w Hon; [exact Hon |].
  cbn [run_loop]. unfold bind.
  destruct (lights_reachable_loop_total hub self (trigger_light_ids self) (slept w b))
    as (r & segp & Hprobe & _).
  assert (Hfst : fst (lights_reachable hub self (slept w b)) = Ok r)
    by (unfold lights_reachable; by rewrite Hprobe).
  destruct (bool_decide (r = b)) eqn:Hrb.
  - apply bool_decide_eq_true_1 in Hrb. subst r.
    destruct (run_iteration_steady hub self w b Hon Hfst) as (seg & -> & _ & Hon1).
    by apply IH.
  - apply bool_decide_eq_false_1 in Hrb.
    assert (r = negb b) as -> by (by destruct r, b).
    destruct (run_iteration_transition hub self w b Hon Hfst)
      as (seg & w1 & -> & _ & Hstate & _ & Hall).
    apply IH. rewrite Hstate, Hall; [done |].
    intros tr l. apply Hrefused.
Qed.

Lemma refused_writes_freeze_state_witness :
  self_on (snd (run_loop hub_refusing shim_one_target 3 world_off)) = Some false.
Proof.
  apply (refused_writes_freeze_state hub_refusing shim_one_target 3 world_off false).
  - intros tr l on. reflexivity.
  - reflexivity.
Defined.

Lemma run_iteration_no_triggers hub self w :
  trigger_light_ids self = [] ->
  self_on w = Some false ->
  run_iteration hub self w =
    (Ok tt, app_trace (EvSleep 5 :: log_events w DEBUG "switch still off") w).
Proof.
  intros Htrig Hon.
  unfold run_iteration, bind, get_self_on, lights_reachable. rewrite Hon, Htrig.
  simpl. rewrite Hon. unfold logging_debug. rewrite logging_log_eq.
  by rewrite app_trace_app.
Qed.

Lemma run_loop_no_triggers hub self : ∀ (fuel : nat) w,
  trigger_light_ids self = [] ->
  self_on w = Some false ->
  ∃ seg, run_loop hub self fuel w = (Ok tt, app_trace seg w)
         ∧ filter is_http seg = [].
Proof.
  induction fuel as [| fuel IH]; intros w Htrig Hon.
  - exists []. by rewrite app_trace_nil.
  - cbn [run_loop]. unfold bind. rewrite run_iteration_no_triggers by done.
    destruct (IH (app_trace (EvSleep 5 :: log_events w DEBUG "switch still off") w)
                Htrig Hon) as (seg & -> & Hseg).
    eexists. rewrite app_trace_app. split; [reflexivity |].
    rewrite filter_app, Hseg. unfold log_events.
    by destruct (_ <=? _).
Qed.

(** X16. A shim configured without triggers never talks to the hub: its
    constructor sets [self.on] to [False] without a request, and [run]
    then only sleeps and logs, for as long as it runs, whatever the
    targets. *)
Theorem no_triggers_no_requests hub a targets (fuel : nat) w :
  ∃ w1 w',
    DumbSwitchShim_init hub a [] targets w = (Ok (mkDumbSwitchShim a [] targets), w1)
    ∧ run hub (mkDumbSwitchShim a [] targets) fuel w1 = (Ok tt, w')
    ∧ self_on w' = Some false
    ∧ filter is_http (trace w') = filter is_http (trace w).
Proof.
  exists (set_self_on false w).
  unfold run, bind, get_self_on. simpl self_on. cbv iota.
  unfold logging_info. rewrite logging_log_eq.
  destruct (run_loop_no_triggers hub (mkDumbSwitchShim a [] targets) fuel
              (app_trace (log_events (set_self_on false w) INFO
                 ("started switch shim (position " +:+ on_off false +:+ ")"))
                 (set_self_on false w)) eq_refl eq_refl) as (seg & -> & Hseg).
  eexists. split; [reflexivity |]. split; [reflexivity |]. split; [reflexivity |].
  rewrite app_trace_app. trace_of_app_trace. rewrite !filter_app, Hseg.
  simpl trace. unfold log_events. destruct (_ <=? _); simpl; by rewrite ?app_nil_r.
Qed.

(** ** A responsive target *)

Lemma exp_backoff_loop_toggle_obedient hub self l on i rest w :
  (∀ tr, accepted (hub tr (PUT l on)) = true) ->
  (∀ tr, confirms (hub tr (GET l)) on = true) ->
  exp_backoff_loop (toggle_light hub self l on) (i :: rest) w =
    (Ok tt, settle on (verify_events hub w l on) w)
  ∧ verified on (verify_events hub w l on) = true
  ∧ put_requests (verify_events hub w l on) = [(l, on)].
Proof.
  intros Hacc Hconf.
  assert (Hv : verified on (verify_events hub w l on) = true).
  { rewrite verified_verify_events. apply Hconf. }
  split; [| split; [exact Hv | apply verify_events_shape]].
  simpl. unfold try_except. rewrite toggle_light_eq, Hacc.
  unfold reread at 1. rewrite Hconf. unfold settle. by rewrite Hv.
Qed.

Lemma for_each_toggle_obedient hub self l on :
  (∀ tr, accepted (hub tr (PUT l on)) = true) ->
  (∀ tr, confirms (hub tr (GET l)) on = true) ->
  ∀ targets w, l ∈ targets ->
  ∃ seg, for_each targets (fun light => exp_backoff (toggle_light hub self light on) 3) w
           = (Ok tt, settle on seg w)
         ∧ verified on seg = true.
Proof.
  intros Hacc Hconf. induction targets as [| x rest IH]; intros w Hin.
  - by apply elem_of_nil in Hin.
  - cbn [for_each]. unfold bind. unfold exp_backoff at 1.
    destruct (decide (x = l)) as [-> | Hne].
    + change (range 3) with (0 :: [1; 2]).
      destruct (exp_backoff_loop_toggle_obedient hub self l on 0 [1; 2] w Hacc Hconf)
        as (-> & Hv & _).
      destruct (for_each_toggle hub self on rest (settle on (verify_events hub w l on) w))
        as (seg2 & -> & _).
      eexists. rewrite settle_settle. split; [reflexivity |].
      by rewrite verified_app, Hv.
    + apply elem_of_cons in Hin as [-> | Hin]; [done |].
      destruct (exp_backoff_loop_toggle hub self x on (range 3) w (range_nonneg 3))
        as (seg1 & -> & _).
      destruct (IH (settle on seg1 w) Hin) as (seg2 & -> & Hv).
      eexists. rewrite settle_settle. split; [reflexivity |].
      rewrite verified_app, Hv. apply orb_true_r.
Qed.

(** X17. One responsive target is enough for [self.on] to follow the probe:
    when some target accepts the write of the newly observed value and
    reports that value when read back, the pass that takes the transition
    ends with [self.on] equal to the probe result, whatever the other
    targets do. *)
Theorem responsive_target_settles_state hub self w b l :
  l ∈ target_light_ids self ->
  (∀ tr, accepted (hub tr (PUT l (negb b))) = true) ->
  (∀ tr, confirms (hub tr (GET l)) (negb b) = true) ->
  self_on w = Some b ->
  fst (lights_reachable hub self (slept w b)) = Ok (negb b) ->
  fst (run_iteration hub self w) = Ok tt
  ∧ self_on (snd (run_iteration hub self w)) = Some (negb b).
Proof.
  intros Hin Hacc Hconf Hon Hprobe.
  destruct (run_iteration_eq hub self w b Hon) as (r & segp & Hrun & _ & ->).
  rewrite Hrun in Hprobe. simpl in Hprobe. injection Hprobe as ->.
  rewrite bool_decide_eq_false_2 by (by destruct b).
  unfold switch_turned, with_LoggingContext, py_with.
  unfold LoggingContext_enter, LoggingContext_init, bind, ret.
  cbn -[logging_log for_each exp_backoff]. unfold logging_info. rewrite logging_log_eq.
  match goal with |- context [for_each _ _ ?w_body] =>
    destruct (for_each_toggle_obedient hub self l (negb b) Hacc Hconf
                (target_light_ids self) w_body Hin) as (seg & -> & Hv)
  end.
  simpl. split; [reflexivity |]. by rewrite self_on_settle, Hv.
Qed.

Lemma responsive_target_settles_state_witness :
  fst (run_iteration hub_obedient shim_one_target world_off) = Ok tt
  ∧ self_on (snd (run_iteration hub_obedient shim_one_target world_off)) = Some true.
Proof.
  apply (responsive_target_settles_state hub_obedient shim_one_target world_off false 7).
  - apply list_elem_of_here.
  - intros tr. reflexivity.
  - intros tr. reflexivity.
  - reflexivity.
  - reflexivity.
Defined.

(** X18. What the per-trigger query makes of any answer: an error exactly
    when the answer has no "state" object to read, reachable exactly when
    that object has a "reachable" entry that is true, and not reachable
    otherwise, a missing "reachable" entry included. *)
Theorem query_classification rs :
  outcome_of rs =
    match state_object rs with
    | None => Errored
    | Some st =>
        match st !! "reachable" with
        | Some v => if truthy v then Reachable else NotReachable
        | None => NotReachable
        end
    end.
Proof.
  unfold outcome_of, state_object.
  destruct rs as [msg | [sc bd]]; [reflexivity |]. simpl.
  destruct ((400 <=? sc) && (sc <? 600)) eqn:Hsc.
  - unfold query_result, _get_light_reachable, bind, requests_send, raise_for_status.
    simpl. by rewrite Hsc.
  - destruct bd as [v |].
    + destruct v; try (unfold query_result, _get_light_reachable, bind, requests_send,
                         raise_for_status; simpl; by rewrite Hsc).
      rewrite query_result_dict by done.
      destruct (d !! "state") as [[] |]; try reflexivity.
      by destruct (d0 !! "reachable").
    + unfold query_result, _get_light_reachable, bind, requests_send, raise_for_status.
      simpl. by rewrite Hsc.
Qed.

(** X19. A transition is always announced: the record "switch turned on" or
    "switch turned off" goes through the root logger at INFO before any
    write of the pass, whatever level the root logger is set to. *)
Theorem transition_announced hub self w b :
  self_on w = Some b ->
  fst (lights_reachable hub self (slept w b)) = Ok (negb b) ->
  ∃ pre post,
    trace (snd (run_iteration hub self w)) =
      trace w ++ pre ++ EvLog INFO ("switch turned " +:+ on_off (negb b)) :: post
    ∧ put_requests pre = [].
Proof.
  intros Hon Hprobe.
  destruct (lights_reachable_loop_prefix hub self (trigger_light_ids self) (slept w b))
    as (r & segp & n & Hrun & Hputp & _).
  destruct (run_iteration_eq hub self w b Hon) as (r' & segp' & Hrun' & _ & ->).
  unfold lights_reachable in Hrun', Hprobe. rewrite Hrun in Hrun', Hprobe.
  injection Hrun' as <- Htr. apply app_inv_head in Htr. subst segp'.
  simpl in Hprobe. injection Hprobe as ->.
  rewrite bool_decide_eq_false_2 by (by destruct b).
  destruct (switch_turned_shape hub self (negb b) (app_trace segp (slept w b)))
    as (seg & ks & w' & -> & Htrace & _).
  exists (EvSleep (if b then 30 else 5) :: segp), seg.
  split.
  - cbn [snd]. rewrite Htrace. simpl. by rewrite <- !app_assoc.
  - change (EvSleep (if b then 30 else 5) :: segp)
      with ([EvSleep (if b then 30 else 5)] ++ segp).
    by rewrite put_requests_app, Hputp.
Qed.

Lemma transition_announced_witness :
  ∃ pre post,
    trace (snd (run_iteration hub_obedient shim_one_target world_quiet)) =
      trace world_quiet ++ pre ++ EvLog INFO "switch turned on" :: post
    ∧ put_requests pre = [].
Proof.
  exact (transition_announced hub_obedient shim_one_target world_quiet false
           eq_refl eq_refl).
Defined.
